(** * Distance tracker of the solar-system animation

    Shallow embedding of [milky-way-planets-and-their-relative-distances-to-earth.py]:
    the module globals ([frame_count], [closest_counts], [distance_sums],
    [dates], the year settings and the animation handle), the frame callback
    [update], the statistics table [update_table], the date generator
    [update_dates] and the two button callbacks.

    Modelling choices.
    - Python [int] is [Z]; a frame index handed out by the animation driver
      is a [nat].
    - A binary64 value is an exact rational ([Q]): NaN, infinities and the
      rounding error of each operation are outside the model.  The square
      root used by [np.linalg.norm] is irrational in general and is a
      parameter of the development ([sqrt_au]); a concrete truncated root
      ([Qsqrt]) serves the worked examples.  The statements made on this
      model are those that do not lean on exact arithmetic: which
      operations run, in which order, on which values, and facts of order
      that rounding to nearest keeps.  Where the script's numbers
      themselves are at stake (the running sums and their average), the
      two lines concerned are also written in binary64, on Rocq's
      primitive floats.
    - A Python [dict] is an association list in insertion order: the script
      iterates its dictionaries ([items], [keys], the stable [sorted]) and
      the order is observable.
    - Exceptions do not roll the globals back, so a computation is a
      function from the globals to a result paired with the globals as they
      are when it returns or raises.
    - Drawing is not modelled: what [update] and [update_table] hand to the
      figure (offsets, table cells before formatting, pie counts, the date
      of the title before its calendar conversion) is returned as a value. *)

From Stdlib Require Import ZArith QArith Qround List String Bool Lia.
From Stdlib Require Import Sorting.Permutation Sorting.Sorted.
From Stdlib Require Import Lqa.
From Stdlib Require Import Floats.PrimFloat.
Import ListNotations.

Local Open Scope string_scope.
Local Open Scope list_scope.
Local Open Scope Z_scope.

(** ** Exceptions and results *)

Inductive exn : Type :=
| IndexError
| KeyError
| ValueError
| ZeroDivisionError
| EphemerisRangeError.

Inductive res (A : Type) : Type :=
| Ok (a : A)
| Err (e : exn).

Arguments Ok {A} a.
Arguments Err {A} e.

Definition res_bind {A B : Type} (r : res A) (k : A -> res B) : res B :=
  match r with
  | Ok a => k a
  | Err e => Err e
  end.

Fixpoint res_mapM {A B : Type} (f : A -> res B) (l : list A) : res (list B) :=
  match l with
  | [] => Ok []
  | x :: r =>
      res_bind (f x) (fun y =>
      res_bind (res_mapM f r) (fun ys => Ok (y :: ys)))
  end.

(** [seq[i]] for a non-negative index. *)
Definition index {A : Type} (l : list A) (i : nat) : res A :=
  match nth_error l i with
  | Some x => Ok x
  | None => Err IndexError
  end.

(** ** Dictionaries in insertion order *)

Definition dict (V : Type) : Type := list (string * V).

Fixpoint dict_get {V : Type} (k : string) (d : dict V) : option V :=
  match d with
  | [] => None
  | (k', v) :: r => if String.eqb k k' then Some v else dict_get k r
  end.

(** [d[k]]: a missing key raises [KeyError]. *)
Definition dict_lookup {V : Type} (k : string) (d : dict V) : res V :=
  match dict_get k d with
  | Some v => Ok v
  | None => Err KeyError
  end.

(** [d[k] = v]: an existing key keeps its place, a new one goes last. *)
Fixpoint dict_set {V : Type} (k : string) (v : V) (d : dict V) : dict V :=
  match d with
  | [] => [(k, v)]
  | (k', v') :: r =>
      if String.eqb k k' then (k, v) :: r else (k', v') :: dict_set k v r
  end.

Definition dict_mem {V : Type} (k : string) (d : dict V) : bool :=
  match dict_get k d with
  | Some _ => true
  | None => false
  end.

Definition dict_keys {V : Type} (d : dict V) : list string := map fst d.
Definition dict_values {V : Type} (d : dict V) : list V := map snd d.

(** A dictionary built by assigning the pairs from left to right. *)
Definition dict_of_pairs {V : Type} (kvs : list (string * V)) : dict V :=
  fold_left (fun d kv => dict_set (fst kv) (snd kv) d) kvs [].

(** [dict(zip(ks, vs))]. *)
Definition dict_of_zip {V : Type} (ks : list string) (vs : list V) : dict V :=
  dict_of_pairs (combine ks vs).

(** [{k: v for k in ks}]. *)
Definition dict_const {V : Type} (ks : list string) (v : V) : dict V :=
  dict_of_pairs (map (fun k => (k, v)) ks).

(** [sum(d.values())] on integer values. *)
Definition sum_values (d : dict Z) : Z :=
  fold_left Z.add (dict_values d) 0.

(** ** Numbers *)

Definition Qlt_bool (a b : Q) : bool := negb (Qle_bool b a).

(** [np.rint]: nearest integer, halves to the even neighbour. *)
Definition rint (q : Q) : Z :=
  let f := Qfloor q in
  match Qcompare (q - inject_Z f) (1 # 2) with
  | Lt => f
  | Gt => f + 1
  | Eq => if Z.even f then f else f + 1
  end.

(** [np.round(x, 2)] is [rint(x * 100) / 100].  Here the product and the
    quotient are exact; the script takes both in binary64, so next to a
    half (0.615, say) it can round the other way.  No statement below
    depends on which way such a value goes or on how far the result lies
    from [x]. *)
Definition round2 (q : Q) : Q := Qmake (rint (q * 100)) 100.

(** [x / n] with an integer divisor; dividing by zero raises.  (With a
    numpy float for [x] the script would get [inf] or [nan] and a warning
    instead; the model takes the stricter reading for both.) *)
Definition py_div (x : Q) (n : Z) : res Q :=
  if n =? 0 then Err ZeroDivisionError else Ok (x / inject_Z n)%Q.

(** The ceiling of [a / b] for a positive [b]. *)
Definition ceil_div (a b : Z) : Z := - ((- a) / b).



(** ** Running sums, in any arithmetic *)

Section RunningSum.
Context {N : Type}.

(** The addition of [distance_sums[planet] += dist] and the division of
    [distance_sums[planet] / frame_count]. *)
Variable add : N -> N -> N.
Variable div_int : N -> Z -> N.



End RunningSum.


(** ** The same two lines in binary64 *)







(** A computable square root for the examples: the root of [n / d] taken
    as the integer root of [n * d * 10^24] over [d * 10^12].  It is exact
    on a square written [a^2 / b^2]. *)
Definition Qsqrt (q : Q) : Q :=
  Qmake (Z.sqrt (Qnum q * Zpos (Qden q) * 10 ^ 24)) (Qden q * 1000000000000).

(** ** [range(start, stop, step)] *)

(** Number of items, as CPython computes it. *)
Definition range_len (start stop step : Z) : Z :=
  if 0 <? step then
    if start <? stop then (stop - start - 1) / step + 1 else 0
  else
    if stop <? start then (start - stop - 1) / (- step) + 1 else 0.

Definition py_range (start stop step : Z) : res (list Z) :=
  if step =? 0 then Err ValueError
  else Ok (map (fun i => start + Z.of_nat i * step)
               (seq 0 (Z.to_nat (range_len start stop step)))).

(** ** [np.argmin] on a vector without NaN *)

(** Scan from index [i]: [besti] holds the least value [best] seen so far
    and is replaced only by a strictly smaller one. *)
Fixpoint argmin_from (best : Q) (besti i : nat) (l : list Q) : nat :=
  match l with
  | [] => besti
  | x :: r =>
      if Qlt_bool x best then argmin_from x i (S i) r
      else argmin_from best besti (S i) r
  end.

Definition argmin (l : list Q) : res nat :=
  match l with
  | [] => Err ValueError
  | x :: r => Ok (argmin_from x 0%nat 1%nat r)
  end.

(** ** [sorted(xs, key=...)]: a stable sort *)

Section StableSort.
Context {A : Type}.
Variable key : A -> Q.

(** [x] comes from the left of everything in [l], so it goes before the
    first item whose key is not smaller than its own. *)
Fixpoint sort_insert (x : A) (l : list A) : list A :=
  match l with
  | [] => [x]
  | y :: r =>
      if Qle_bool (key x) (key y) then x :: y :: r
      else y :: sort_insert x r
  end.

Fixpoint sorted_by (l : list A) : list A :=
  match l with
  | [] => []
  | x :: r => sort_insert x (sorted_by r)
  end.

(** The order the sort works with. *)
Definition key_le (a b : A) : Prop := (key a <= key b)%Q.

End StableSort.

(** [xs.index(x)] on strings. *)
Fixpoint list_index (x : string) (l : list string) : res nat :=
  match l with
  | [] => Err ValueError
  | y :: r =>
      if String.eqb x y then Ok 0%nat
      else res_bind (list_index x r) (fun i => Ok (S i))
  end.

(** ** Data of the script *)

Definition planet_map : dict string :=
  [ ("Mercury", "MERCURY");
    ("Venus", "VENUS");
    ("Earth", "EARTH");
    ("Mars", "MARS");
    ("Jupiter", "JUPITER BARYCENTER");
    ("Saturn", "SATURN BARYCENTER");
    ("Uranus", "URANUS BARYCENTER");
    ("Neptune", "NEPTUNE BARYCENTER") ].

Definition planets : list string := dict_keys planet_map.

Definition not_earth (p : string) : bool := negb (String.eqb p "Earth").

(** [[p for p in planets if p != "Earth"]], which the script rebuilds at
    each use and also keeps as [table_planets]. *)
Definition table_planets : list string := filter not_earth planets.

(** A Python string is true when it is not empty. *)
Definition truthy (s : string) : bool := negb (String.eqb s "").

(** A time point: terrestrial time of 1 January of [tp_year], plus
    [tp_offset] days ([ts.utc(start_year, 1, 1).tt + i]). *)
Record TimePoint : Type := mkTimePoint {
  tp_year : Z;
  tp_offset : Z
}.

Record Vec3 : Type := mkVec3 { vx : Q; vy : Q; vz : Q }.

Definition vsub (a b : Vec3) : Vec3 :=
  mkVec3 (vx a - vx b)%Q (vy a - vy b)%Q (vz a - vz b)%Q.

(** [v[:2]]. *)
Definition xy (v : Vec3) : Q * Q := (vx v, vy v).

(** The loaded ephemeris: [eph[name]] is a segment or a [KeyError];
    [segment.at(date).position.au] is a vector or a range error. *)
Definition Segment : Type := TimePoint -> option Vec3.
Definition Ephemeris : Type := string -> option Segment.

Definition eph_getitem (eph : Ephemeris) (name : string) : res Segment :=
  match eph name with
  | Some seg => Ok seg
  | None => Err KeyError
  end.

Definition position_au (seg : Segment) (date : TimePoint) : res Vec3 :=
  match seg date with
  | Some v => Ok v
  | None => Err EphemerisRangeError
  end.

(** The animation object, as far as the callbacks use it: the number of
    frames fixed at creation, the next frame of its iterator and whether its
    timer ([event_source]) is running. *)
Record FuncAnimation : Type := mkAni {
  ani_frames : nat;
  ani_next : nat;
  ani_timer_on : bool
}.

(** The module globals, with the text held by the two text boxes. *)
Record Globals : Type := mkGlobals {
  start_year : Z;
  end_year : Z;
  step_days : Z;
  dates : list TimePoint;
  closest_counts : dict Z;
  distance_sums : dict Q;
  frame_count : Z;
  ani : option FuncAnimation;
  textbox_start : string;
  textbox_end : string
}.

Definition set_dates (v : list TimePoint) (g : Globals) : Globals :=
  mkGlobals (start_year g) (end_year g) (step_days g) v (closest_counts g)
            (distance_sums g) (frame_count g) (ani g)
            (textbox_start g) (textbox_end g).

Definition set_closest_counts (v : dict Z) (g : Globals) : Globals :=
  mkGlobals (start_year g) (end_year g) (step_days g) (dates g) v
            (distance_sums g) (frame_count g) (ani g)
            (textbox_start g) (textbox_end g).

Definition set_distance_sums (v : dict Q) (g : Globals) : Globals :=
  mkGlobals (start_year g) (end_year g) (step_days g) (dates g)
            (closest_counts g) v (frame_count g) (ani g)
            (textbox_start g) (textbox_end g).

Definition set_frame_count (v : Z) (g : Globals) : Globals :=
  mkGlobals (start_year g) (end_year g) (step_days g) (dates g)
            (closest_counts g) (distance_sums g) v (ani g)
            (textbox_start g) (textbox_end g).

Definition set_ani (v : option FuncAnimation) (g : Globals) : Globals :=
  mkGlobals (start_year g) (end_year g) (step_days g) (dates g)
            (closest_counts g) (distance_sums g) (frame_count g) v
            (textbox_start g) (textbox_end g).

Definition set_textbox_start (v : string) (g : Globals) : Globals :=
  mkGlobals (start_year g) (end_year g) (step_days g) (dates g)
            (closest_counts g) (distance_sums g) (frame_count g) (ani g)
            v (textbox_end g).

Definition set_textbox_end (v : string) (g : Globals) : Globals :=
  mkGlobals (start_year g) (end_year g) (step_days g) (dates g)
            (closest_counts g) (distance_sums g) (frame_count g) (ani g)
            (textbox_start g) v.

(** ** Computations on the globals *)

Definition M (A : Type) : Type := Globals -> res A * Globals.

Definition ret {A : Type} (a : A) : M A := fun g => (Ok a, g).

Definition bind {A B : Type} (c : M A) (k : A -> M B) : M B :=
  fun g =>
    match c g with
    | (Ok a, g') => k a g'
    | (Err e, g') => (Err e, g')
    end.

Definition get : M Globals := fun g => (Ok g, g).
Definition modify (f : Globals -> Globals) : M unit := fun g => (Ok tt, f g).
Definition lift {A : Type} (r : res A) : M A := fun g => (r, g).

Declare Scope py_scope.
Delimit Scope py_scope with py.
Notation "x <- c ;; k" := (bind c (fun x => k))
  (at level 61, c at next level, right associativity) : py_scope.
Notation "c ;; k" := (bind c (fun _ => k))
  (at level 61, right associativity) : py_scope.
Notation "x <~ r ;; k" := (res_bind r (fun x => k))
  (at level 61, r at next level, right associativity) : py_scope.
Local Open Scope py_scope.

(** [for x in l: body(x)]. *)
Fixpoint for_each {A : Type} (l : list A) (body : A -> M unit) : M unit :=
  match l with
  | [] => ret tt
  | x :: r => body x ;; for_each r body
  end.

(** ** The date generator *)

(** [update_dates()]: one time point per item of
    [range(0, (end_year - start_year) * 365, step_days)]. *)
Definition update_dates : M unit :=
  g <- get ;;
  offsets <- lift (py_range 0 ((end_year g - start_year g) * 365) (step_days g)) ;;
  modify (set_dates (map (mkTimePoint (start_year g)) offsets)).

(** ** The statistics table *)

(** One line of the table: its row number and planet, then the four cells
    the script rewrites (the values before they are formatted to text). *)
Record Row : Type := mkRow {
  row_line : nat;
  row_planet : string;
  row_current : Q;
  row_average : Q;
  row_rank : Z;
  row_percent : Q
}.

(** [sorted([p for p in current_distances.keys() if p != "Earth"],
            key=lambda p: current_distances[p])]. *)
Definition sorted_planets (current_distances : dict Q) : list string :=
  map fst
    (sorted_by snd (filter (fun kv => not_earth (fst kv)) current_distances)).

(** [{planet: sorted_planets.index(planet) + 1 for planet in sorted_planets}]. *)
Definition closest_order (sp : list string) : res (dict Z) :=
  kvs <~ res_mapM (fun planet =>
           i <~ list_index planet sp ;; Ok (planet, Z.of_nat i + 1)) sp ;;
  Ok (dict_of_pairs kvs).

(** [round((closest_counts[planet] / frame_count) * 100, 2)
     if frame_count > 0 else 0].  The quotient, the product and the
     rounding are exact here and binary64 in the script, so the last
     digit written can differ; what is stated about a percentage is the
     guard and its range. *)
Definition percentage_of (g : Globals) (planet : string) : res Q :=
  if 0 <? frame_count g then
    c <~ dict_lookup planet (closest_counts g) ;;
    q <~ py_div (inject_Z c) (frame_count g) ;;
    Ok (round2 (q * 100))
  else Ok 0%Q.

Definition closest_percentage (g : Globals) : res (dict Q) :=
  kvs <~ res_mapM (fun planet =>
           v <~ percentage_of g planet ;; Ok (planet, v)) table_planets ;;
  Ok (dict_of_pairs kvs).

(** [distance_sums[planet] / frame_count if frame_count > 0 else 0]. *)
Definition avg_distance (g : Globals) (planet : string) : res Q :=
  if 0 <? frame_count g then
    total <~ dict_lookup planet (distance_sums g) ;;
    py_div total (frame_count g)
  else Ok 0%Q.

(** The body of the loop over [enumerate(table_planets)]: a planet absent
    from [current_distances] leaves its line alone. *)
Definition table_line (g : Globals) (current_distances : dict Q)
    (order : dict Z) (percentage : dict Q) (ip : nat * string)
    : res (list Row) :=
  let (i, planet) := ip in
  if dict_mem planet current_distances then
    avg <~ avg_distance g planet ;;
    cur <~ dict_lookup planet current_distances ;;
    rank <~ dict_lookup planet order ;;
    pct <~ dict_lookup planet percentage ;;
    Ok [mkRow (S i) planet cur avg rank pct]
  else Ok [].

(** [update_table(current_distances)]: it reads the globals and rewrites
    table cells; the lines it rewrites are its result here. *)
Definition update_table (g : Globals) (current_distances : dict Q)
    : res (list Row) :=
  order <~ closest_order (sorted_planets current_distances) ;;
  percentage <~ closest_percentage g ;;
  lines <~ res_mapM (table_line g current_distances order percentage)
             (combine (seq 0 (List.length table_planets)) table_planets) ;;
  Ok (List.concat lines).

(** ** The frame callback *)

(** What a frame hands to the figure: the title data, the scatter offsets,
    the table lines and the pie-chart counts. *)
Record FrameOutput : Type := mkFrameOutput {
  fo_date : TimePoint;
  fo_elapsed_days : Z;
  fo_earth : Q * Q;
  fo_positions : list (Q * Q);
  fo_current_distances : dict Q;
  fo_closest : string;
  fo_table : list Row;
  fo_pie : dict Z
}.

(** [d[k] += v] on the two statistics dictionaries.  The addition of the
    distance sums is exact here and binary64 in the script; what is stated
    about the sums is which additions are made, in which order. *)
Definition add_distance (planet : string) (dist : Q) : M unit :=
  g <- get ;;
  old <- lift (dict_lookup planet (distance_sums g)) ;;
  modify (set_distance_sums (dict_set planet (old + dist)%Q (distance_sums g))).

Definition count_closest (planet : string) : M unit :=
  g <- get ;;
  old <- lift (dict_lookup planet (closest_counts g)) ;;
  modify (set_closest_counts (dict_set planet (old + 1) (closest_counts g))).

(** [{p: v for p, v in closest_counts.items() if v > 0 and p != "Earth"}]. *)
Definition filtered_counts (cc : dict Z) : dict Z :=
  filter (fun pv => (0 <? snd pv) && not_earth (fst pv)) cc.

Section Frame.

(** The square root behind [np.linalg.norm]. *)
Variable sqrt_au : Q -> Q.

(** [eph = load('de422.bsp')]. *)
Variable eph : Ephemeris.

(** [np.linalg.norm] of a planar vector. *)
Definition norm2 (v : Q * Q) : Q :=
  sqrt_au (fst v * fst v + snd v * snd v)%Q.

Definition sub2 (a b : Q * Q) : Q * Q :=
  (fst a - fst b, snd a - snd b)%Q.

(** [distance(a, b)], which the script defines and does not call. *)
Definition distance (a b : Vec3) : Q :=
  sqrt_au (vx (vsub a b) * vx (vsub a b) + vy (vsub a b) * vy (vsub a b)
           + vz (vsub a b) * vz (vsub a b))%Q.

(** [eph[name].at(date).position.au - sun.at(date).position.au]. *)
Definition heliocentric (sun : Segment) (name : string) (date : TimePoint)
    : res Vec3 :=
  seg <~ eph_getitem eph name ;;
  p <~ position_au seg date ;;
  s <~ position_au sun date ;;
  Ok (vsub p s).

(** One item of the [planet_positions] comprehension. *)
Definition planet_position (sun : Segment) (date : TimePoint) (p : string)
    : res (Q * Q) :=
  target <~ dict_lookup p planet_map ;;
  v <~ heliocentric sun target date ;;
  Ok (xy v).

(** The lookups and the distance vector of a frame (lines 195 to 205). *)
Definition frame_geometry (date : TimePoint)
    : res ((Q * Q) * list (Q * Q) * list Q) :=
  sun <~ eph_getitem eph "SUN" ;;
  earth_pos <~ heliocentric sun "EARTH" date ;;
  planet_positions <~ res_mapM (planet_position sun date) table_planets ;;
  Ok (xy earth_pos, planet_positions,
      map (fun pp => norm2 (sub2 pp (xy earth_pos))) planet_positions).



(** What the ephemeris answers for a body and a date. *)
Definition lookup (name : string) (date : TimePoint) : res Vec3 :=
  seg <~ eph_getitem eph name ;;
  position_au seg date.

(** [update(frame)]. *)
Definition update (frame : nat) : M FrameOutput :=
  g0 <- get ;;
  date <- lift (index (dates g0) frame) ;;
  modify (fun g => set_frame_count (frame_count g + 1) g) ;;
  geo <- lift (frame_geometry date) ;;
  let '(earth_xy, planet_positions, distances) := geo in
  min_index <- lift (argmin distances) ;;
  closest_planet <- lift (index table_planets min_index) ;;
  let current_distances := dict_of_zip table_planets (map round2 distances) in
  for_each current_distances (fun pd => add_distance (fst pd) (snd pd)) ;;
  (if truthy closest_planet then count_closest closest_planet else ret tt) ;;
  g <- get ;;
  table <- lift (update_table g current_distances) ;;
  ret (mkFrameOutput date (Z.of_nat frame * step_days g) earth_xy
         planet_positions current_distances closest_planet table
         (filtered_counts (closest_counts g))).

(** Frames processed one after another; the first exception ends the run. *)
Fixpoint run_frames (frames : list nat) : M (list FrameOutput) :=
  match frames with
  | [] => ret []
  | f :: r =>
      out <- update f ;;
      outs <- run_frames r ;;
      ret (out :: outs)
  end.

(** ** The buttons and the timer *)

(** The three assignments that open [start_simulation]. *)
Definition reset : M unit :=
  modify (set_frame_count 0) ;;
  modify (set_closest_counts (dict_const planets 0)) ;;
  modify (set_distance_sums (dict_const planets 0%Q)).

(** [ani.event_source.start()] and [ani.event_source.stop()]. *)
Definition set_timer (on : bool) (a : FuncAnimation) : FuncAnimation :=
  mkAni (ani_frames a) (ani_next a) on.

Definition start_simulation : M unit :=
  reset ;;
  update_dates ;;
  g <- get ;;
  let a := match ani g with
           | None => mkAni (List.length (dates g)) 0 false
           | Some a => a
           end in
  modify (set_ani (Some (set_timer true a))).

Definition stop_simulation : M unit :=
  g <- get ;;
  match ani g with
  | Some a => modify (set_ani (Some (set_timer false a)))
  | None => ret tt
  end.

(** One firing of the animation timer: with the timer running and frames
    left, the next frame index goes to [update]; with [repeat=False] the
    timer stops when the frames are used up.  A stopped timer does not
    fire. *)
Definition tick : M unit :=
  g <- get ;;
  match ani g with
  | Some a =>
      if ani_timer_on a then
        if (ani_next a <? ani_frames a)%nat then
          modify (set_ani (Some (mkAni (ani_frames a) (S (ani_next a)) true))) ;;
          update (ani_next a) ;;
          ret tt
        else modify (set_ani (Some (set_timer false a)))
      else ret tt
  | None => ret tt
  end.

End Frame.

(** Whether the timer of the animation is running. *)
Definition timer_running (g : Globals) : bool :=
  match ani g with
  | Some a => ani_timer_on a
  | None => false
  end.

(** Every entry of a statistics dictionary is zero. *)
Definition all_zero_Z (d : dict Z) : Prop := Forall (fun kv => snd kv = 0) d.
Definition all_zero_Q (d : dict Q) : Prop := Forall (fun kv => snd kv = 0%Q) d.

(** Typing into a text box changes the text it holds; the script registers
    no callback on either box. *)
Definition type_start_year (text : string) : M unit :=
  modify (set_textbox_start text).

Definition type_end_year (text : string) : M unit :=
  modify (set_textbox_end text).

(** The globals once the module body has run. *)
Definition module_globals : Globals :=
  snd (update_dates
         (mkGlobals 0 2999 1 [] (dict_const planets 0) (dict_const planets 0%Q)
                    0 None "0" "2999")).

(** The bodies a frame asks the ephemeris about. *)
Definition queried_bodies : list string := "SUN" :: dict_values planet_map.

(** ** Worked data *)

(** A small ephemeris: the Sun at the origin, the Earth at one unit on the
    x axis, Mercury drifting along the x axis by [drift] per day, the other
    planets fixed.  It has no data before 1 January of [first_year]. *)
Definition toy_orbits (drift : Q) : dict (TimePoint -> Vec3) :=
  [ ("SUN", fun _ => mkVec3 0 0 0);
    ("EARTH", fun _ => mkVec3 1 0 0);
    ("MERCURY", fun d =>
       mkVec3 ((2004 # 1000) + drift * inject_Z (tp_offset d)) 0 (3 # 10));
    ("VENUS", fun _ => mkVec3 1 (1001 # 1000) 0);
    ("MARS", fun _ => mkVec3 1 (- (3 # 2)) 0);
    ("JUPITER BARYCENTER", fun _ => mkVec3 (62 # 10) 0 0);
    ("SATURN BARYCENTER", fun _ => mkVec3 1 (95 # 10) 0);
    ("URANUS BARYCENTER", fun _ => mkVec3 (- 18) 0 0);
    ("NEPTUNE BARYCENTER", fun _ => mkVec3 1 (- 30) 0) ]%Q.

Definition toy_eph (first_year : Z) (drift : Q) : Ephemeris :=
  fun name =>
    match dict_get name (toy_orbits drift) with
    | Some orbit =>
        Some (fun date =>
                if first_year <=? tp_year date then Some (orbit date) else None)
    | None => None
    end.

(** Globals with the year settings edited to one year, before any start. *)
Definition one_year_globals : Globals :=
  mkGlobals 2000 2001 1 [] (dict_const planets 0) (dict_const planets 0%Q)
            0 None "2000" "2001".

(** The same after the start button. *)
Definition one_year_started : Globals :=
  snd (start_simulation one_year_globals).

(** The module as loaded, after the start button. *)
Definition module_started : Globals :=
  snd (start_simulation module_globals).

(** The Body the closest-count would go to if the minimum-index scan ran on
    the rounded distances of the frame. *)
Definition first_rounded_min (current_distances : dict Q) : res string :=
  i <~ argmin (dict_values current_distances) ;;
  index (dict_keys current_distances) i.

(** What a frame has no business writing: the settings, the dates, the
    animation, the text boxes, and which keys the two statistics
    dictionaries hold, in which order. *)
Definition frame_fixed (g : Globals)
    : Z * Z * Z * list TimePoint * option FuncAnimation * string * string
      * list string * list string :=
  (start_year g, end_year g, step_days g, dates g, ani g,
   textbox_start g, textbox_end g,
   dict_keys (closest_counts g), dict_keys (distance_sums g)).

(** [xs.index(x)] as a number, 0 for an absent item. *)
Definition position_in (l : list string) (x : string) : nat :=
  match list_index x l with
  | Ok i => i
  | Err _ => 0%nat
  end.

(** The next frame of the animation and its number of frames, as the start
    button leaves them: those of the animation at hand, or those of a new
    one over [n] dates. *)
Definition resume_frame (g : Globals) : nat :=
  match ani g with
  | Some a => ani_next a
  | None => 0%nat
  end.

Definition resume_frames (g : Globals) (n : nat) : nat :=
  match ani g with
  | Some a => ani_frames a
  | None => n
  end.

(** A count dictionary a run can reach: no negative count, and nothing
    counted for the Earth. *)
Definition counts_sane (cc : dict Z) : Prop :=
  Forall (fun kv => 0 <= snd kv /\ (fst kv = "Earth" -> snd kv = 0)) cc.

(** A computation that leaves [frame_fixed] alone, however it ends. *)
Definition keeps_fixed {A : Type} (c : M A) : Prop :=
  forall g r g', c g = (r, g') -> frame_fixed g' = frame_fixed g.

(** * Properties *)

(** ** Results and computations *)

Lemma res_bind_Ok {A B : Type} (r : res A) (k : A -> res B) (b : B) :
  res_bind r k = Ok b -> exists a, r = Ok a /\ k a = Ok b.
Proof.
  destruct r as [a|e]; simpl; intros H; [eauto | discriminate].
Qed.

Lemma bind_Ok {A B : Type} (c : M A) (k : A -> M B) g b g' :
  bind c k g = (Ok b, g') ->
  exists a g1, c g = (Ok a, g1) /\ k a g1 = (Ok b, g').
Proof.
  unfold bind. destruct (c g) as [[a|e] g1]; intros H.
  - eauto.
  - inversion H.
Qed.

Lemma lift_Ok {A : Type} (r : res A) g a g' :
  lift r g = (Ok a, g') -> r = Ok a /\ g' = g.
Proof.
  unfold lift. intros H. inversion H. auto.
Qed.

Lemma index_Ok {A : Type} (l : list A) i x :
  index l i = Ok x -> nth_error l i = Some x.
Proof.
  unfold index. destruct (nth_error l i); intros H; inversion H; reflexivity.
Qed.

Lemma res_mapM_Ok {A B : Type} (f : A -> res B) :
  forall l ys, res_mapM f l = Ok ys -> Forall2 (fun x y => f x = Ok y) l ys.
Proof.
  induction l as [|x l IH]; simpl; intros ys H.
  - inversion H. constructor.
  - apply res_bind_Ok in H. destruct H as [y [Hy H]].
    apply res_bind_Ok in H. destruct H as [ys' [Hys H]].
    inversion H; subst. constructor; auto.
Qed.

Lemma res_mapM_ext {A B : Type} (f f' : A -> res B) :
  forall l, (forall x, In x l -> f x = f' x) -> res_mapM f l = res_mapM f' l.
Proof.
  induction l as [|x l IH]; simpl; intros H; [reflexivity|].
  rewrite (H x) by auto. rewrite IH by auto. reflexivity.
Qed.

(** ** Dictionaries *)

Lemma dict_get_set_same {V : Type} (k : string) (v : V) :
  forall d, dict_get k (dict_set k v d) = Some v.
Proof.
  induction d as [|[k' v'] d IH]; simpl.
  - rewrite String.eqb_refl. reflexivity.
  - destruct (String.eqb k k') eqn:E; simpl.
    + rewrite String.eqb_refl. reflexivity.
    + rewrite E. exact IH.
Qed.

Lemma dict_get_set_other {V : Type} (k k' : string) (v : V) :
  k <> k' -> forall d, dict_get k (dict_set k' v d) = dict_get k d.
Proof.
  intros Hne. apply String.eqb_neq in Hne.
  induction d as [|[k2 v2] d IH]; simpl.
  - rewrite Hne. reflexivity.
  - destruct (String.eqb k' k2) eqn:E; simpl.
    + apply String.eqb_eq in E. subst k2. rewrite Hne. reflexivity.
    + rewrite IH. reflexivity.
Qed.

Lemma dict_get_In {V : Type} (k : string) (v : V) :
  forall d, dict_get k d = Some v -> In (k, v) d.
Proof.
  induction d as [|[k' v'] d IH]; simpl; intros H; [discriminate|].
  destruct (String.eqb k k') eqn:E.
  - apply String.eqb_eq in E. inversion H. subst. auto.
  - auto.
Qed.

Lemma dict_get_None {V : Type} (k : string) :
  forall d : dict V, dict_get k d = None <-> ~ In k (dict_keys d).
Proof.
  induction d as [|[k' v'] d IH]; simpl.
  - tauto.
  - destruct (String.eqb k k') eqn:E.
    + apply String.eqb_eq in E. subst. split; [discriminate | intros H; exfalso; auto].
    + apply String.eqb_neq in E. rewrite IH. split.
      * intros H [H1|H1]; [congruence | auto].
      * intros H H1. apply H. auto.
Qed.

Lemma dict_get_NoDup {V : Type} (k : string) (v : V) :
  forall d, NoDup (dict_keys d) -> In (k, v) d -> dict_get k d = Some v.
Proof.
  induction d as [|[k' v'] d IH]; simpl; intros Hnd Hin; [contradiction|].
  inversion Hnd as [|? ? Hnot Hnd']; subst.
  destruct Hin as [Heq|Hin].
  - inversion Heq; subst. rewrite String.eqb_refl. reflexivity.
  - destruct (String.eqb k k') eqn:E.
    + apply String.eqb_eq in E. subst k'. exfalso. apply Hnot.
      change k with (fst (k, v)). apply in_map. exact Hin.
    + auto.
Qed.

Lemma dict_set_fresh {V : Type} (k : string) (v : V) :
  forall d, ~ In k (dict_keys d) -> dict_set k v d = d ++ [(k, v)].
Proof.
  induction d as [|[k' v'] d IH]; simpl; intros Hnot; [reflexivity|].
  destruct (String.eqb k k') eqn:E.
  - apply String.eqb_eq in E. subst. exfalso. auto.
  - rewrite IH by auto. reflexivity.
Qed.

Lemma dict_of_pairs_from {V : Type} :
  forall (kvs acc : dict V),
    NoDup (dict_keys (acc ++ kvs)) ->
    fold_left (fun d kv => dict_set (fst kv) (snd kv) d) kvs acc = acc ++ kvs.
Proof.
  induction kvs as [|[k v] kvs IH]; simpl; intros acc Hnd.
  - rewrite app_nil_r. reflexivity.
  - assert (Hfresh : ~ In k (dict_keys acc)).
    { unfold dict_keys in *. rewrite map_app in Hnd. simpl in Hnd.
      apply NoDup_remove_2 in Hnd. intros Hin. apply Hnd.
      apply in_or_app. auto. }
    rewrite dict_set_fresh by exact Hfresh.
    rewrite IH; rewrite <- app_assoc; simpl; [reflexivity | exact Hnd].
Qed.

Lemma dict_of_pairs_NoDup {V : Type} (kvs : dict V) :
  NoDup (dict_keys kvs) -> dict_of_pairs kvs = kvs.
Proof.
  intros H. unfold dict_of_pairs. rewrite dict_of_pairs_from; auto.
Qed.

Lemma dict_keys_combine {V : Type} :
  forall (ks : list string) (vs : list V),
    List.length ks = List.length vs -> dict_keys (combine ks vs) = ks.
Proof.
  induction ks as [|k ks IH]; intros [|v vs] H; simpl in *;
    try discriminate; [reflexivity|].
  f_equal. apply IH. lia.
Qed.

Lemma dict_of_zip_NoDup {V : Type} (ks : list string) (vs : list V) :
  NoDup ks -> List.length ks = List.length vs ->
  dict_of_zip ks vs = combine ks vs.
Proof.
  intros Hnd Hlen. unfold dict_of_zip. apply dict_of_pairs_NoDup.
  rewrite dict_keys_combine; assumption.
Qed.

Lemma fold_add_shift (l : list Z) :
  forall a, fold_left Z.add l a = a + fold_left Z.add l 0.
Proof.
  induction l as [|x l IH]; simpl; intros a; [lia|].
  rewrite (IH (a + x)), (IH x). lia.
Qed.

Lemma sum_values_cons (k : string) (v : Z) (d : dict Z) :
  sum_values ((k, v) :: d) = v + sum_values d.
Proof.
  unfold sum_values. simpl. apply fold_add_shift.
Qed.

Lemma sum_values_set (k : string) (old v : Z) :
  forall d, dict_get k d = Some old ->
            sum_values (dict_set k v d) = sum_values d - old + v.
Proof.
  induction d as [|[k' v'] d IH]; simpl; intros H; [discriminate|].
  destruct (String.eqb k k') eqn:E.
  - inversion H; subst. rewrite !sum_values_cons. lia.
  - rewrite !sum_values_cons. rewrite IH by exact H. lia.
Qed.

Lemma nodup_table_planets : NoDup table_planets.
Proof.
  repeat constructor; simpl; intuition discriminate.
Qed.

Lemma table_planets_truthy (p : string) :
  In p table_planets -> truthy p = true.
Proof.
  simpl. intros H.
  repeat (destruct H as [H|H]; [subst p; reflexivity|]). contradiction.
Qed.

(** ** One frame, step by step *)

Lemma add_distance_Ok (p : string) (d : Q) (g g' : Globals) :
  add_distance p d g = (Ok tt, g') ->
  exists old,
    dict_get p (distance_sums g) = Some old /\
    g' = set_distance_sums (dict_set p (old + d)%Q (distance_sums g)) g.
Proof.
  unfold add_distance, bind, get, lift, modify, dict_lookup.
  destruct (dict_get p (distance_sums g)) as [old|]; intros H; inversion H.
  exists old. auto.
Qed.

Lemma count_closest_Ok (p : string) (g g' : Globals) :
  count_closest p g = (Ok tt, g') ->
  exists old,
    dict_get p (closest_counts g) = Some old /\
    g' = set_closest_counts (dict_set p (old + 1) (closest_counts g)) g.
Proof.
  unfold count_closest, bind, get, lift, modify, dict_lookup.
  destruct (dict_get p (closest_counts g)) as [old|]; intros H; inversion H.
  exists old. auto.
Qed.

Lemma set_distance_sums_same (g : Globals) :
  set_distance_sums (distance_sums g) g = g.
Proof. destruct g; reflexivity. Qed.

Lemma for_each_add_distance :
  forall (kvs : dict Q) (g g' : Globals),
    for_each kvs (fun pd => add_distance (fst pd) (snd pd)) g = (Ok tt, g') ->
    NoDup (dict_keys kvs) ->
    exists sums,
      g' = set_distance_sums sums g /\
      (forall p d, In (p, d) kvs ->
         exists old, dict_get p (distance_sums g) = Some old /\
                     dict_get p sums = Some (old + d)%Q) /\
      (forall p, ~ In p (dict_keys kvs) ->
         dict_get p sums = dict_get p (distance_sums g)).
Proof.
  induction kvs as [|[k v] kvs IH]; simpl; intros g g' H Hnd.
  - inversion H; subst. exists (distance_sums g').
    rewrite set_distance_sums_same. repeat split; intros; tauto.
  - apply bind_Ok in H. destruct H as [[] [g1 [Hadd Hrest]]].
    apply add_distance_Ok in Hadd. destruct Hadd as [old [Hold Hg1]].
    inversion Hnd as [|? ? Hfresh Hnd']; subst.
    destruct (IH _ _ Hrest Hnd') as [sums [Hg' [Hin Hout]]].
    exists sums. simpl in *. split; [exact Hg'|]. split.
    + intros p d [Heq|Hp].
      * inversion Heq; subst p d. exists old. split; [exact Hold|].
        rewrite Hout by exact Hfresh. apply dict_get_set_same.
      * destruct (Hin p d Hp) as [old' [Hold' Hnew]].
        exists old'. split; [|exact Hnew].
        rewrite <- Hold'. symmetry. apply dict_get_set_other.
        intros ->. apply Hfresh. change k with (fst (k, d)).
        apply in_map. exact Hp.
    + intros p Hp. rewrite Hout by tauto.
      apply dict_get_set_other. intros ->. tauto.
Qed.

Lemma Forall2_length_eq {A B : Type} (R : A -> B -> Prop) (l : list A) (l' : list B) :
  Forall2 R l l' -> List.length l = List.length l'.
Proof.
  induction 1; simpl; congruence.
Qed.

Section FrameFacts.

Variable sqrt_au : Q -> Q.
Variable eph : Ephemeris.

Lemma frame_geometry_length (date : TimePoint) earth pps ds :
  frame_geometry sqrt_au eph date = Ok (earth, pps, ds) ->
  List.length ds = List.length table_planets /\
  List.length pps = List.length table_planets.
Proof.
  unfold frame_geometry. intros H.
  apply res_bind_Ok in H. destruct H as [sun [_ H]].
  apply res_bind_Ok in H. destruct H as [e [_ H]].
  apply res_bind_Ok in H. destruct H as [pp [Hpp H]].
  inversion H; subst. apply res_mapM_Ok, Forall2_length_eq in Hpp.
  rewrite length_map. auto.
Qed.

(** What a frame that returns has done. *)
Lemma update_Ok (frame : nat) (g g' : Globals) (out : FrameOutput) :
  update sqrt_au eph frame g = (Ok out, g') ->
  exists date earth pps ds i closest sums old table,
    nth_error (dates g) frame = Some date /\
    frame_geometry sqrt_au eph date = Ok (earth, pps, ds) /\
    argmin ds = Ok i /\
    nth_error table_planets i = Some closest /\
    (forall p d, In (p, d) (combine table_planets (map round2 ds)) ->
       exists s, dict_get p (distance_sums g) = Some s /\
                 dict_get p sums = Some (s + d)%Q) /\
    (forall p, ~ In p table_planets ->
       dict_get p sums = dict_get p (distance_sums g)) /\
    dict_get closest (closest_counts g) = Some old /\
    g' = set_closest_counts (dict_set closest (old + 1) (closest_counts g))
           (set_distance_sums sums (set_frame_count (frame_count g + 1) g)) /\
    update_table g' (combine table_planets (map round2 ds)) = Ok table /\
    out = mkFrameOutput date (Z.of_nat frame * step_days g) earth pps
            (combine table_planets (map round2 ds)) closest table
            (filtered_counts (closest_counts g')).
Proof.
  unfold update. intros H.
  apply bind_Ok in H. destruct H as [g0 [g1 [Hget H]]].
  inversion Hget; subst g0 g1; clear Hget.
  apply bind_Ok in H. destruct H as [date [g1 [Hdate H]]].
  apply lift_Ok in Hdate. destruct Hdate as [Hdate ->].
  apply index_Ok in Hdate.
  apply bind_Ok in H. destruct H as [[] [g1 [Hmod H]]].
  inversion Hmod; subst g1; clear Hmod.
  apply bind_Ok in H. destruct H as [[[earth pps] ds] [g1 [Hgeo H]]].
  apply lift_Ok in Hgeo. destruct Hgeo as [Hgeo ->].
  apply bind_Ok in H. destruct H as [i [g1 [Hmin H]]].
  apply lift_Ok in Hmin. destruct Hmin as [Hmin ->].
  apply bind_Ok in H. destruct H as [closest [g1 [Hcl H]]].
  apply lift_Ok in Hcl. destruct Hcl as [Hcl ->].
  apply index_Ok in Hcl.
  destruct (frame_geometry_length _ _ _ _ Hgeo) as [Hlen _].
  rewrite dict_of_zip_NoDup in H
    by (rewrite ?length_map; auto using nodup_table_planets).
  apply bind_Ok in H. destruct H as [[] [g1 [Hsum H]]].
  apply for_each_add_distance in Hsum.
  2:{ rewrite dict_keys_combine by (rewrite length_map; auto).
      apply nodup_table_planets. }
  destruct Hsum as [sums [-> [Hin Hout]]].
  rewrite dict_keys_combine in Hout by (rewrite length_map; auto).
  apply bind_Ok in H. destruct H as [[] [g2 [Hcnt H]]].
  rewrite (table_planets_truthy closest) in Hcnt
    by (eapply nth_error_In; eauto).
  apply count_closest_Ok in Hcnt. destruct Hcnt as [old [Hold ->]].
  apply bind_Ok in H. destruct H as [g3 [g4 [Hget H]]].
  inversion Hget; subst g3 g4; clear Hget.
  apply bind_Ok in H. destruct H as [table [g3 [Htab H]]].
  apply lift_Ok in Htab. destruct Htab as [Htab ->].
  inversion H; subst.
  exists date, earth, pps, ds, i, closest, sums, old, table.
  repeat split; auto.
Qed.

End FrameFacts.

(** ** Counters *)

Section Counters.

Variable sqrt_au : Q -> Q.
Variable eph : Ephemeris.

Lemma update_counts (frame : nat) (g g' : Globals) (out : FrameOutput) :
  update sqrt_au eph frame g = (Ok out, g') ->
  frame_count g' = frame_count g + 1 /\
  dates g' = dates g /\
  In (fo_closest out) table_planets /\
  exists old,
    dict_get (fo_closest out) (closest_counts g) = Some old /\
    closest_counts g' =
      dict_set (fo_closest out) (old + 1) (closest_counts g).
Proof.
  intros H. apply update_Ok in H.
  destruct H as (date & earth & pps & ds & i & closest & sums & old & table
                 & _ & _ & _ & Hcl & _ & _ & Hold & -> & _ & ->).
  cbn [fo_closest frame_count dates closest_counts set_closest_counts
       set_distance_sums set_frame_count].
  repeat split; auto.
  - eapply nth_error_In; eauto.
  - exists old. auto.
Qed.

Lemma run_frames_counts :
  forall (frames : list nat) (g g' : Globals) (outs : list FrameOutput),
    run_frames sqrt_au eph frames g = (Ok outs, g') ->
    frame_count g' = frame_count g + Z.of_nat (List.length frames) /\
    sum_values (closest_counts g') =
      sum_values (closest_counts g) + Z.of_nat (List.length frames) /\
    dates g' = dates g /\
    List.length outs = List.length frames.
Proof.
  induction frames as [|f frames IH]; intros g g' outs H.
  - inversion H; subst. simpl. repeat split; lia.
  - simpl in H.
    apply bind_Ok in H. destruct H as [out [g1 [Hup H]]].
    apply bind_Ok in H. destruct H as [outs' [g2 [Hrun H]]].
    inversion H; subst; clear H.
    apply update_counts in Hup.
    destruct Hup as (Hfc & Hd & _ & old & Hold & Hcc).
    apply IH in Hrun. destruct Hrun as (Hfc' & Hsum & Hd' & Hlen).
    rewrite Hfc', Hsum, Hd', Hfc, Hcc, Hd.
    rewrite (sum_values_set _ old) by exact Hold.
    cbn [List.length]. repeat split; lia.
Qed.

End Counters.

(** ** Reset, start and stop *)

Lemma reset_state (g : Globals) :
  reset g =
  (Ok tt,
   set_distance_sums (dict_const planets 0%Q)
     (set_closest_counts (dict_const planets 0) (set_frame_count 0 g))).
Proof. reflexivity. Qed.

Lemma zero_counts : all_zero_Z (dict_const planets 0).
Proof. repeat constructor. Qed.

Lemma zero_sums : all_zero_Q (dict_const planets 0%Q).
Proof. repeat constructor. Qed.

(** C10.  The reset is idempotent: applied to any state it returns, with
    no exception, a state with [frame_count] 0 and every entry of
    [closest_counts] and [distance_sums] 0 (one entry per planet), and
    applying it a second time gives exactly that state again. *)
Theorem reset_idempotent (g : Globals) :
  reset (snd (reset g)) = reset g /\
  fst (reset g) = Ok tt /\
  frame_count (snd (reset g)) = 0 /\
  dict_keys (closest_counts (snd (reset g))) = planets /\
  all_zero_Z (closest_counts (snd (reset g))) /\
  dict_keys (distance_sums (snd (reset g))) = planets /\
  all_zero_Q (distance_sums (snd (reset g))).
Proof.
  rewrite reset_state. cbn [fst snd]. rewrite reset_state.
  repeat split; try reflexivity.
  - apply zero_counts.
  - apply zero_sums.
Qed.

Lemma start_simulation_stats (g : Globals) :
  frame_count (snd (start_simulation g)) = 0 /\
  closest_counts (snd (start_simulation g)) = dict_const planets 0 /\
  distance_sums (snd (start_simulation g)) = dict_const planets 0%Q.
Proof.
  unfold start_simulation, bind. rewrite reset_state.
  unfold update_dates, bind, get, lift, modify.
  destruct (py_range _ _ _); cbn; auto.
Qed.

Lemma start_simulation_timer (g : Globals) :
  step_days g <> 0 ->
  fst (start_simulation g) = Ok tt /\
  timer_running (snd (start_simulation g)) = true.
Proof.
  intros Hstep. apply Z.eqb_neq in Hstep.
  unfold start_simulation, bind. rewrite reset_state.
  unfold update_dates, bind, get, lift, modify, py_range.
  cbn [step_days set_distance_sums set_closest_counts set_frame_count].
  rewrite Hstep. cbn. destruct (ani g); auto.
Qed.

Lemma stop_simulation_state (g : Globals) :
  fst (stop_simulation g) = Ok tt /\
  timer_running (snd (stop_simulation g)) = false /\
  frame_count (snd (stop_simulation g)) = frame_count g /\
  closest_counts (snd (stop_simulation g)) = closest_counts g /\
  distance_sums (snd (stop_simulation g)) = distance_sums g /\
  dates (snd (stop_simulation g)) = dates g.
Proof.
  unfold stop_simulation, bind, get, modify, ret, timer_running.
  destruct (ani g) as [a|] eqn:E; cbn; rewrite ?E; auto 10.
Qed.

Lemma tick_stopped (sqrt_au : Q -> Q) (eph : Ephemeris) (g : Globals) :
  timer_running g = false -> tick sqrt_au eph g = (Ok tt, g).
Proof.
  unfold timer_running, tick, bind, get, ret.
  destruct (ani g) as [a|]; [|reflexivity].
  intros ->. reflexivity.
Qed.

Lemma zero_entries :
  dict_keys (dict_const planets 0) = planets /\
  dict_keys (dict_const planets 0%Q) = planets /\
  forall p, In p planets ->
    dict_get p (dict_const planets 0) = Some 0 /\
    dict_get p (dict_const planets 0%Q) = Some 0%Q.
Proof.
  split; [reflexivity|]. split; [reflexivity|].
  intros p H. simpl in H.
  repeat (destruct H as [H|H]; [subst p; split; reflexivity|]).
  contradiction.
Qed.

(** C7.  The start button leaves [frame_count] at 0 and both
    [closest_counts] and [distance_sums] with exactly one entry per planet,
    every one of them 0, when it returns, which is before the timer can
    hand a frame to [update]; with a usable step it returns normally with
    the timer running.  The stop button returns with the timer stopped, so
    that a firing of the timer processes nothing, and it leaves
    [frame_count], [closest_counts] and [distance_sums] as they were. *)
Theorem start_resets_stop_preserves
    (sqrt_au : Q -> Q) (eph : Ephemeris) (g : Globals) :
  (frame_count (snd (start_simulation g)) = 0 /\
   closest_counts (snd (start_simulation g)) = dict_const planets 0 /\
   all_zero_Z (closest_counts (snd (start_simulation g))) /\
   distance_sums (snd (start_simulation g)) = dict_const planets 0%Q /\
   all_zero_Q (distance_sums (snd (start_simulation g))) /\
   (step_days g <> 0 ->
    fst (start_simulation g) = Ok tt /\
    timer_running (snd (start_simulation g)) = true) /\
   dict_keys (closest_counts (snd (start_simulation g))) = planets /\
   dict_keys (distance_sums (snd (start_simulation g))) = planets /\
   (forall p, In p planets ->
      dict_get p (closest_counts (snd (start_simulation g))) = Some 0 /\
      dict_get p (distance_sums (snd (start_simulation g))) = Some 0%Q)) /\
  (fst (stop_simulation g) = Ok tt /\
   timer_running (snd (stop_simulation g)) = false /\
   tick sqrt_au eph (snd (stop_simulation g)) =
     (Ok tt, snd (stop_simulation g)) /\
   frame_count (snd (stop_simulation g)) = frame_count g /\
   closest_counts (snd (stop_simulation g)) = closest_counts g /\
   distance_sums (snd (stop_simulation g)) = distance_sums g).
Proof.
  destruct (start_simulation_stats g) as (Hfc & Hcc & Hds).
  destruct (stop_simulation_state g) as (Hr & Ht & Hfc' & Hcc' & Hds' & _).
  destruct zero_entries as (Hk1 & Hk2 & Hget).
  split.
  - rewrite Hcc, Hds.
    split; [exact Hfc|]. split; [reflexivity|].
    split; [apply zero_counts|]. split; [reflexivity|].
    split; [apply zero_sums|].
    split; [apply start_simulation_timer|].
    split; [exact Hk1|]. split; [exact Hk2 | exact Hget].
  - repeat split; auto using tick_stopped.
Qed.

(** The start button on the one-year settings, from counts that are not
    zero and lack most planets. *)
Lemma start_resets_stop_preserves_witness :
  fst (start_simulation
         (set_closest_counts [("Mars", 5)] (set_frame_count 5 one_year_globals)))
    = Ok tt /\
  timer_running
    (snd (start_simulation
            (set_closest_counts [("Mars", 5)]
               (set_frame_count 5 one_year_globals)))) = true /\
  dict_get "Mars"
    (closest_counts
       (snd (start_simulation
               (set_closest_counts [("Mars", 5)]
                  (set_frame_count 5 one_year_globals))))) = Some 0 /\
  dict_get "Venus"
    (closest_counts
       (snd (start_simulation
               (set_closest_counts [("Mars", 5)]
                  (set_frame_count 5 one_year_globals))))) = Some 0.
Proof.
  destruct (start_resets_stop_preserves Qsqrt (toy_eph 0 1)
              (set_closest_counts [("Mars", 5)]
                 (set_frame_count 5 one_year_globals)))
    as [(_ & _ & _ & _ & _ & Hrun & _ & _ & Hget) _].
  destruct Hrun as [Hok Hon]; [discriminate|].
  split; [exact Hok|]. split; [exact Hon|]. split.
  - apply (Hget "Mars"). simpl. auto.
  - apply (Hget "Venus"). simpl. auto.
Defined.

(** ** The closest-count invariant *)

(** C3.  After a reset and any number of frames that all return, the
    closest counts add up to [frame_count], which is the number of frames
    processed; and a frame that returns has added exactly 1 to
    [frame_count] and exactly 1 to the count of one non-Earth Body, the
    closest one, leaving the other counts alone. *)
Theorem closest_counts_sum_is_frame_count
    (sqrt_au : Q -> Q) (eph : Ephemeris) (g g' : Globals)
    (frames : list nat) (outs : list FrameOutput) :
  run_frames sqrt_au eph frames (snd (reset g)) = (Ok outs, g') ->
  sum_values (closest_counts g') = frame_count g' /\
  frame_count g' = Z.of_nat (List.length frames) /\
  (forall f g1 out g2,
     update sqrt_au eph f g1 = (Ok out, g2) ->
     frame_count g2 = frame_count g1 + 1 /\
     In (fo_closest out) table_planets /\
     sum_values (closest_counts g2) = sum_values (closest_counts g1) + 1 /\
     exists old,
       dict_get (fo_closest out) (closest_counts g1) = Some old /\
       closest_counts g2 =
         dict_set (fo_closest out) (old + 1) (closest_counts g1)).
Proof.
  intros H. apply run_frames_counts in H.
  destruct H as (Hfc & Hsum & _ & _).
  rewrite reset_state in Hfc, Hsum. cbn in Hfc, Hsum.
  repeat split; try lia.
  all: apply update_counts in H; destruct H as (H1 & _ & H2 & old & H3 & H4);
    auto.
  - rewrite H4, (sum_values_set _ old) by exact H3. lia.
  - exists old. auto.
Qed.

(** Three frames on the small ephemeris after a start. *)
Lemma closest_counts_sum_is_frame_count_witness :
  exists outs g',
    run_frames Qsqrt (toy_eph 0 1) [0; 1; 2]%nat
      (snd (reset one_year_started)) = (Ok outs, g') /\
    sum_values (closest_counts g') = frame_count g' /\
    frame_count g' = 3.
Proof.
  destruct (run_frames Qsqrt (toy_eph 0 1) [0; 1; 2]%nat
              (snd (reset one_year_started))) as [[outs|e] g'] eqn:E.
  - exists outs, g'. split; [reflexivity|].
    destruct (closest_counts_sum_is_frame_count _ _ _ _ _ _ E)
      as (Hsum & Hfc & _).
    split; assumption.
  - vm_compute in E. discriminate E.
Defined.

(** ** Distance sums and the mean *)


Section Sums.

Variable sqrt_au : Q -> Q.
Variable eph : Ephemeris.





End Sums.

Lemma reset_sum_entry (g : Globals) (p : string) :
  In p table_planets -> dict_get p (distance_sums (snd (reset g))) = Some 0%Q.
Proof.
  rewrite reset_state. cbn [snd distance_sums set_distance_sums].
  simpl. intros H.
  repeat (destruct H as [H|H]; [subst p; reflexivity|]). contradiction.
Qed.




(** ** The minimum-index scan *)

Lemma Qlt_bool_true (a b : Q) : Qlt_bool a b = true <-> (a < b)%Q.
Proof.
  unfold Qlt_bool. rewrite negb_true_iff, <- not_true_iff_false, Qle_bool_iff.
  split; [apply Qnot_le_lt | apply Qlt_not_le].
Qed.

Lemma Qlt_bool_false (a b : Q) : Qlt_bool a b = false <-> (b <= a)%Q.
Proof.
  unfold Qlt_bool. rewrite negb_false_iff. apply Qle_bool_iff.
Qed.

Lemma argmin_from_spec :
  forall (l pre : list Q) (best : Q) (besti : nat),
    nth_error pre besti = Some best ->
    (forall j dj, nth_error pre j = Some dj -> (best <= dj)%Q) ->
    (forall j dj, (j < besti)%nat -> nth_error pre j = Some dj ->
                  (best < dj)%Q) ->
    exists dr,
      nth_error (pre ++ l) (argmin_from best besti (List.length pre) l)
        = Some dr /\
      (forall j dj, nth_error (pre ++ l) j = Some dj -> (dr <= dj)%Q) /\
      (forall j dj,
         (j < argmin_from best besti (List.length pre) l)%nat ->
         nth_error (pre ++ l) j = Some dj -> (dr < dj)%Q).
Proof.
  induction l as [|x l IH]; intros pre best besti Hbest Hle Hlt.
  - rewrite app_nil_r. simpl. eauto.
  - assert (Hbi : (besti < List.length pre)%nat).
    { apply nth_error_Some. congruence. }
    assert (Hsplit : pre ++ x :: l = (pre ++ [x]) ++ l).
    { rewrite <- app_assoc. reflexivity. }
    assert (Hlen : List.length (pre ++ [x]) = S (List.length pre)).
    { rewrite length_app. simpl. lia. }
    assert (Hnth : forall j dj,
               nth_error (pre ++ [x]) j = Some dj ->
               (j < List.length pre)%nat /\ nth_error pre j = Some dj \/
               j = List.length pre /\ dj = x).
    { intros j dj Hj.
      destruct (Nat.lt_ge_cases j (List.length pre)) as [Hlt'|Hge].
      - left. rewrite nth_error_app1 in Hj by exact Hlt'. auto.
      - right. rewrite nth_error_app2 in Hj by exact Hge.
        destruct (j - List.length pre)%nat as [|n] eqn:E; simpl in Hj.
        + inversion Hj. split; [lia | reflexivity].
        + destruct n; discriminate. }
    simpl. rewrite Hsplit, <- Hlen.
    destruct (Qlt_bool x best) eqn:E.
    + apply Qlt_bool_true in E.
      apply IH.
      * rewrite nth_error_app2 by lia. rewrite Nat.sub_diag. reflexivity.
      * intros j dj Hj. destruct (Hnth j dj Hj) as [[_ Hp]|[_ ->]].
        -- apply Qlt_le_weak. eapply Qlt_le_trans; [exact E|]. eauto.
        -- apply Qle_refl.
      * intros j dj Hj Hn. destruct (Hnth j dj Hn) as [[_ Hp]|[Hj' _]].
        -- eapply Qlt_le_trans; [exact E|]. eauto.
        -- lia.
    + apply Qlt_bool_false in E.
      apply IH.
      * rewrite nth_error_app1 by exact Hbi. exact Hbest.
      * intros j dj Hj. destruct (Hnth j dj Hj) as [[_ Hp]|[_ ->]]; eauto.
      * intros j dj Hj Hn. destruct (Hnth j dj Hn) as [[_ Hp]|[Hj' _]].
        -- eauto.
        -- lia.
Qed.

(** [argmin] returns the first index that holds the least value. *)
Lemma argmin_spec (l : list Q) (i : nat) :
  argmin l = Ok i ->
  exists di,
    nth_error l i = Some di /\
    (forall j dj, nth_error l j = Some dj -> (di <= dj)%Q) /\
    (forall j dj, (j < i)%nat -> nth_error l j = Some dj -> (di < dj)%Q).
Proof.
  destruct l as [|x l]; simpl; intros H; inversion H; subst.
  apply (argmin_from_spec l [x] x 0%nat).
  - reflexivity.
  - intros [|[|j]] dj Hj; simpl in Hj; inversion Hj. apply Qle_refl.
  - intros j dj Hj. lia.
Qed.

(** ** The stable sort *)

Section SortFacts.

Context {A : Type}.
Variable key : A -> Q.

Lemma sort_insert_perm (x : A) :
  forall l, Permutation (sort_insert key x l) (x :: l).
Proof.
  induction l as [|y l IH]; simpl; [reflexivity|].
  destruct (Qle_bool (key x) (key y)); [reflexivity|].
  rewrite IH. apply perm_swap.
Qed.

Lemma sorted_by_perm : forall l, Permutation (sorted_by key l) l.
Proof.
  induction l as [|x l IH]; simpl; [reflexivity|].
  rewrite sort_insert_perm. constructor. exact IH.
Qed.

Lemma sort_insert_hd (x y : A) :
  forall l, key_le key y x -> HdRel (key_le key) y l -> HdRel (key_le key) y (sort_insert key x l).
Proof.
  intros [|z l] Hyx Hhd; simpl; [constructor; exact Hyx|].
  destruct (Qle_bool (key x) (key z)); constructor; [exact Hyx|].
  inversion Hhd; assumption.
Qed.

Lemma sort_insert_sorted (x : A) :
  forall l, Sorted (key_le key) l -> Sorted (key_le key) (sort_insert key x l).
Proof.
  induction l as [|y l IH]; simpl; intros Hs.
  - repeat constructor.
  - inversion Hs as [|? ? Hs' Hhd]; subst.
    destruct (Qle_bool (key x) (key y)) eqn:E.
    + apply Qle_bool_iff in E. repeat constructor; assumption.
    + constructor; [auto|].
      apply sort_insert_hd; [|exact Hhd].
      unfold key_le. apply Qlt_le_weak, Qnot_le_lt.
      rewrite <- Qle_bool_iff. congruence.
Qed.

Lemma sorted_by_sorted : forall l, StronglySorted (key_le key) (sorted_by key l).
Proof.
  intros l. apply Sorted_StronglySorted.
  - intros a b c. unfold key_le. apply Qle_trans.
  - induction l as [|x l IH]; simpl; [constructor|].
    apply sort_insert_sorted. exact IH.
Qed.

(** Items with equal keys keep the order they came in. *)
Lemma sort_insert_stable (k : Q) (x : A) :
  forall l,
    filter (fun a => Qeq_bool (key a) k) (sort_insert key x l) =
    filter (fun a => Qeq_bool (key a) k) (x :: l).
Proof.
  induction l as [|y l IH]; [reflexivity|].
  cbn [sort_insert].
  destruct (Qle_bool (key x) (key y)) eqn:E; [reflexivity|].
  cbn [filter] in *. rewrite IH.
  destruct (Qeq_bool (key x) k) eqn:Ex, (Qeq_bool (key y) k) eqn:Ey;
    try reflexivity.
  apply Qeq_bool_iff in Ex, Ey. exfalso.
  assert (Hle : (key x <= key y)%Q) by (rewrite Ex, Ey; apply Qle_refl).
  apply Qle_bool_iff in Hle. congruence.
Qed.

Lemma sorted_by_stable (k : Q) :
  forall l,
    filter (fun a => Qeq_bool (key a) k) (sorted_by key l) =
    filter (fun a => Qeq_bool (key a) k) l.
Proof.
  induction l as [|x l IH]; [reflexivity|].
  cbn [sorted_by]. rewrite sort_insert_stable. cbn [filter].
  rewrite IH. reflexivity.
Qed.

End SortFacts.

(** ** The table *)

Lemma list_index_spec (x : string) :
  forall l i,
    list_index x l = Ok i ->
    nth_error l i = Some x /\
    forall j, (j < i)%nat -> nth_error l j <> Some x.
Proof.
  induction l as [|y l IH]; simpl; intros i H; [discriminate|].
  destruct (String.eqb x y) eqn:E.
  - apply String.eqb_eq in E. inversion H; subst. split; [reflexivity|].
    intros j Hj. lia.
  - apply res_bind_Ok in H. destruct H as [i' [Hi' H]]. inversion H; subst.
    destruct (IH _ Hi') as [Hn Hfirst]. split; [exact Hn|].
    intros [|j] Hj; simpl.
    + apply String.eqb_neq in E. congruence.
    + apply Hfirst. lia.
Qed.

Lemma list_index_In (x : string) :
  forall l, In x l -> exists i, list_index x l = Ok i.
Proof.
  induction l as [|y l IH]; simpl; intros H; [contradiction|].
  destruct (String.eqb x y) eqn:E; [eauto|].
  destruct H as [->|H]; [rewrite String.eqb_refl in E; discriminate|].
  destruct (IH H) as [i ->]. simpl. eauto.
Qed.

Lemma fold_set_get {V : Type} :
  forall (kvs acc : dict V) (k : string) (v : V),
    dict_get k (fold_left (fun d kv => dict_set (fst kv) (snd kv) d) kvs acc)
      = Some v ->
    In (k, v) kvs \/ dict_get k acc = Some v.
Proof.
  induction kvs as [|[k0 v0] kvs IH]; simpl; intros acc k v H; [auto|].
  destruct (IH _ _ _ H) as [Hin|Hacc]; [auto|].
  destruct (string_dec k k0) as [->|Hne].
  - rewrite dict_get_set_same in Hacc. inversion Hacc; subst. auto.
  - rewrite dict_get_set_other in Hacc by exact Hne. auto.
Qed.

Lemma fold_set_has {V : Type} :
  forall (kvs acc : dict V) (k : string),
    In k (dict_keys kvs) \/ dict_get k acc <> None ->
    dict_get k (fold_left (fun d kv => dict_set (fst kv) (snd kv) d) kvs acc)
      <> None.
Proof.
  induction kvs as [|[k0 v0] kvs IH]; simpl; intros acc k H.
  - destruct H as [[]|H]; exact H.
  - apply IH. destruct (string_dec k k0) as [->|Hne].
    + right. rewrite dict_get_set_same. discriminate.
    + destruct H as [[Heq|Hin]|Hacc]; [congruence | auto |].
      right. rewrite dict_get_set_other by exact Hne. exact Hacc.
Qed.

Lemma dict_of_pairs_get {V : Type} (kvs : dict V) (k : string) (v : V) :
  dict_get k (dict_of_pairs kvs) = Some v -> In (k, v) kvs.
Proof.
  intros H. apply fold_set_get in H. destruct H as [H|H]; [exact H|].
  discriminate.
Qed.

Lemma dict_of_pairs_has {V : Type} (kvs : dict V) (k : string) :
  In k (dict_keys kvs) -> exists v, dict_get k (dict_of_pairs kvs) = Some v.
Proof.
  intros H.
  destruct (dict_get k (dict_of_pairs kvs)) as [v|] eqn:E; [eauto|].
  exfalso. revert E. apply fold_set_has. auto.
Qed.

Lemma mapM_pairs {V : Type} (F : string -> res (string * V)) :
  (forall p kv, F p = Ok kv -> fst kv = p) ->
  forall l kvs,
    res_mapM F l = Ok kvs ->
    dict_keys kvs = l /\
    forall p v, In (p, v) kvs -> In p l /\ F p = Ok (p, v).
Proof.
  intros HF l kvs H. apply res_mapM_Ok in H.
  induction H as [|x [k v] l kvs Hx _ [IHk IHin]]; simpl.
  - split; [reflexivity | intros ? ? []].
  - pose proof (HF _ _ Hx) as Hk. simpl in Hk. subst k.
    split; [f_equal; exact IHk|].
    intros p w [Heq|Hin].
    + inversion Heq; subst. auto.
    + destruct (IHin _ _ Hin). auto.
Qed.

Lemma Forall2_right_In {A B : Type} (R : A -> B -> Prop) :
  forall l l', Forall2 R l l' ->
               forall y, In y l' -> exists x, In x l /\ R x y.
Proof.
  induction 1 as [|x y l l' Hxy _ IH]; simpl; intros z Hz; [contradiction|].
  destruct Hz as [->|Hz]; [eauto|].
  destruct (IH z Hz) as [x' [Hin HR]]. eauto.
Qed.

Lemma filter_all {A : Type} (P : A -> bool) :
  forall l, (forall x, In x l -> P x = true) -> filter P l = l.
Proof.
  induction l as [|x l IH]; simpl; intros H; [reflexivity|].
  rewrite (H x) by auto. f_equal. auto.
Qed.

Lemma table_planets_not_earth (p : string) :
  In p table_planets -> not_earth p = true.
Proof.
  unfold table_planets. intros H. apply filter_In in H. tauto.
Qed.

Lemma closest_order_get (sp : list string) (order : dict Z) :
  closest_order sp = Ok order ->
  forall p r,
    dict_get p order = Some r ->
    exists i, list_index p sp = Ok i /\ r = Z.of_nat i + 1.
Proof.
  unfold closest_order. intros H p r Hr.
  apply res_bind_Ok in H. destruct H as [kvs [Hkvs H]]. inversion H; subst.
  apply dict_of_pairs_get in Hr.
  apply mapM_pairs in Hkvs.
  - destruct Hkvs as [_ Hin]. destruct (Hin _ _ Hr) as [_ HF].
    apply res_bind_Ok in HF. destruct HF as [i [Hi HF]].
    inversion HF. eauto.
  - intros q kv Hq. apply res_bind_Ok in Hq. destruct Hq as [i [_ Hq]].
    inversion Hq. reflexivity.
Qed.

Lemma closest_percentage_get (g : Globals) (percentage : dict Q) :
  closest_percentage g = Ok percentage ->
  forall p v, dict_get p percentage = Some v -> percentage_of g p = Ok v.
Proof.
  unfold closest_percentage. intros H p v Hv.
  apply res_bind_Ok in H. destruct H as [kvs [Hkvs H]]. inversion H; subst.
  apply dict_of_pairs_get in Hv.
  apply mapM_pairs in Hkvs.
  - destruct Hkvs as [_ Hin]. destruct (Hin _ _ Hv) as [_ HF].
    apply res_bind_Ok in HF. destruct HF as [w [Hw HF]].
    inversion HF; subst. exact Hw.
  - intros q kv Hq. apply res_bind_Ok in Hq. destruct Hq as [w [_ Hq]].
    inversion Hq. reflexivity.
Qed.

Lemma dict_lookup_Ok {V : Type} (k : string) (d : dict V) (v : V) :
  dict_lookup k d = Ok v <-> dict_get k d = Some v.
Proof.
  unfold dict_lookup. destruct (dict_get k d); split; intros H;
    inversion H; reflexivity.
Qed.

(** Every line the table shows holds the planet's current distance, its
    average, its percentage and its place in the sorted order. *)
Lemma update_table_rows (g : Globals) (cd : dict Q) (table : list Row) :
  update_table g cd = Ok table ->
  forall row, In row table ->
    In (row_planet row) table_planets /\
    dict_get (row_planet row) cd = Some (row_current row) /\
    avg_distance g (row_planet row) = Ok (row_average row) /\
    percentage_of g (row_planet row) = Ok (row_percent row) /\
    exists i,
      list_index (row_planet row) (sorted_planets cd) = Ok i /\
      row_rank row = Z.of_nat i + 1.
Proof.
  unfold update_table. intros H row Hrow.
  apply res_bind_Ok in H. destruct H as [order [Hord H]].
  apply res_bind_Ok in H. destruct H as [pct [Hpct H]].
  apply res_bind_Ok in H. destruct H as [lines [Hlines H]].
  inversion H; subst; clear H.
  apply in_concat in Hrow. destruct Hrow as [line [Hline Hrow]].
  apply res_mapM_Ok in Hlines.
  destruct (Forall2_right_In _ _ _ Hlines _ Hline) as [[i p] [Hip Hl]].
  apply in_combine_r in Hip.
  unfold table_line in Hl.
  destruct (dict_mem p cd); [|inversion Hl; subst; contradiction].
  apply res_bind_Ok in Hl. destruct Hl as [avg [Havg Hl]].
  apply res_bind_Ok in Hl. destruct Hl as [cur [Hcur Hl]].
  apply res_bind_Ok in Hl. destruct Hl as [rank [Hrank Hl]].
  apply res_bind_Ok in Hl. destruct Hl as [pc [Hpc Hl]].
  inversion Hl; subst; clear Hl.
  destruct Hrow as [<-|[]]. cbn [row_planet row_current row_average
                                  row_percent row_rank].
  apply dict_lookup_Ok in Hcur, Hrank, Hpc.
  repeat split; auto.
  - eapply closest_percentage_get; eauto.
  - eapply closest_order_get; eauto.
Qed.

(** ** Selection of the closest Body and rank order *)

Lemma current_distances_not_earth (vs : list Q) :
  filter (fun kv : string * Q => not_earth (fst kv)) (combine table_planets vs)
  = combine table_planets vs.
Proof.
  apply filter_all. intros [k v] Hin. apply in_combine_l in Hin.
  apply table_planets_not_earth. exact Hin.
Qed.

(** C1, as amended.  A frame that returns picks the closest Body on the
    distances before rounding: the Body whose count goes up is the first
    one, in the order of the Body list, whose unrounded planar distance
    from the Earth is the least of all non-Earth Bodies.  The distances are
    rounded to two decimals after that; the current distances the frame
    reports, what it adds to the distance sums and the rank order of the
    table (ascending, Bodies with equal rounded distance in list order,
    rank = place in that order counted from 1) all use the rounded values. *)
Theorem closest_is_first_unrounded_minimum
    (sqrt_au : Q -> Q) (eph : Ephemeris) (frame : nat) (g g' : Globals)
    (out : FrameOutput) :
  update sqrt_au eph frame g = (Ok out, g') ->
  exists date earth pps ds i di old,
    nth_error (dates g) frame = Some date /\
    frame_geometry sqrt_au eph date = Ok (earth, pps, ds) /\
    nth_error table_planets i = Some (fo_closest out) /\
    nth_error ds i = Some di /\
    (forall j dj, nth_error ds j = Some dj -> (di <= dj)%Q) /\
    (forall j dj, (j < i)%nat -> nth_error ds j = Some dj -> (di < dj)%Q) /\
    dict_get (fo_closest out) (closest_counts g) = Some old /\
    closest_counts g' = dict_set (fo_closest out) (old + 1) (closest_counts g) /\
    fo_current_distances out = combine table_planets (map round2 ds) /\
    (forall p d, In (p, d) (fo_current_distances out) ->
       exists s, dict_get p (distance_sums g) = Some s /\
                 dict_get p (distance_sums g') = Some (s + d)%Q) /\
    sorted_planets (fo_current_distances out) =
      map fst (sorted_by snd (fo_current_distances out)) /\
    Permutation (sorted_by snd (fo_current_distances out))
                (fo_current_distances out) /\
    StronglySorted (key_le snd) (sorted_by snd (fo_current_distances out)) /\
    (forall k,
       filter (fun a => Qeq_bool (snd a) k)
              (sorted_by snd (fo_current_distances out)) =
       filter (fun a => Qeq_bool (snd a) k) (fo_current_distances out)) /\
    (forall row, In row (fo_table out) ->
       dict_get (row_planet row) (fo_current_distances out)
         = Some (row_current row) /\
       exists k,
         nth_error (sorted_planets (fo_current_distances out)) k
           = Some (row_planet row) /\
         row_rank row = Z.of_nat k + 1).
Proof.
  intros H. apply update_Ok in H.
  destruct H as (date & earth & pps & ds & i & closest & sums & old & table
                 & Hdate & Hgeo & Hmin & Hcl & Hin & _ & Hold & -> & Htab & ->).
  apply argmin_spec in Hmin. destruct Hmin as (di & Hdi & Hle & Hlt).
  exists date, earth, pps, ds, i, di, old.
  cbn [fo_closest fo_current_distances fo_table closest_counts distance_sums
       set_closest_counts set_distance_sums].
  repeat split; auto.
  - unfold sorted_planets. rewrite current_distances_not_earth. reflexivity.
  - apply sorted_by_perm.
  - apply sorted_by_sorted.
  - intros k. apply sorted_by_stable.
  - destruct (update_table_rows _ _ _ Htab row H) as (_ & Hcur & _). exact Hcur.
  - destruct (update_table_rows _ _ _ Htab row H)
      as (_ & _ & _ & _ & k & Hk & Hrank).
    exists k. split; [|exact Hrank].
    apply list_index_spec in Hk. tauto.
Qed.

(** The first frame on the small ephemeris: Mercury at 1.004 and Venus at
    1.001 both round to 1.00, and Venus is counted. *)
Lemma closest_is_first_unrounded_minimum_witness :
  exists out g',
    update Qsqrt (toy_eph 0 1) 0 one_year_started = (Ok out, g') /\
    fo_closest out = "Venus" /\
    exists ds di,
      nth_error ds 1 = Some di /\
      (forall j dj, nth_error ds j = Some dj -> (di <= dj)%Q) /\
      fo_current_distances out = combine table_planets (map round2 ds).
Proof.
  destruct (update Qsqrt (toy_eph 0 1) 0 one_year_started)
    as [[out|e] g'] eqn:E.
  - exists out, g'. split; [reflexivity|].
    assert (Hv : fo_closest out = "Venus").
    { change (fo_closest out) with
        (fo_closest (match (Ok out : res FrameOutput) with
                     | Ok o => o | Err _ => out end)).
      replace (Ok out) with
        (fst (update Qsqrt (toy_eph 0 1) 0 one_year_started))
        by (rewrite E; reflexivity).
      vm_compute. reflexivity. }
    split; [exact Hv|].
    destruct (closest_is_first_unrounded_minimum _ _ _ _ _ _ E)
      as (date & earth & pps & ds & i & di & old & _ & _ & Hi & Hdi & Hle
          & _ & _ & _ & Hcd & _).
    rewrite Hv in Hi.
    assert (Hi1 : i = 1%nat).
    { destruct i as [|[|[|[|[|[|[|i]]]]]]]; simpl in Hi;
        try discriminate Hi; try reflexivity.
      destruct i; discriminate Hi. }
    subst i. exists ds, di. auto.
  - vm_compute in E. discriminate E.
Defined.

(** C1, as stated, fails on that frame: the minimum-index scan over the
    rounded distances would pick Mercury (1.00, first of the two at 1.00),
    and the count that goes up is that of Venus. *)
Lemma closest_is_not_first_rounded_minimum :
  match update Qsqrt (toy_eph 0 1) 0 one_year_started with
  | (Ok out, g') =>
      dict_get "Mercury" (fo_current_distances out) = Some (100 # 100)%Q /\
      dict_get "Venus" (fo_current_distances out) = Some (100 # 100)%Q /\
      first_rounded_min (fo_current_distances out) = Ok "Mercury" /\
      fo_closest out = "Venus" /\
      first_rounded_min (fo_current_distances out) <> Ok (fo_closest out) /\
      dict_get "Mercury" (closest_counts one_year_started) = Some 0 /\
      dict_get "Mercury" (closest_counts g') = Some 0 /\
      dict_get "Venus" (closest_counts one_year_started) = Some 0 /\
      dict_get "Venus" (closest_counts g') = Some 1
  | (Err _, _) => False
  end.
Proof.
  vm_compute. repeat split; try reflexivity. discriminate.
Qed.

(** ** The guard on the divisions *)

Lemma res_bind_no_zde {A B : Type} (r : res A) (k : A -> res B) :
  r <> Err ZeroDivisionError ->
  (forall a, r = Ok a -> k a <> Err ZeroDivisionError) ->
  res_bind r k <> Err ZeroDivisionError.
Proof.
  destruct r as [a|e]; simpl; intros Hr Hk; [auto | congruence].
Qed.

Lemma res_mapM_no_zde {A B : Type} (f : A -> res B) :
  forall l, (forall x, In x l -> f x <> Err ZeroDivisionError) ->
            res_mapM f l <> Err ZeroDivisionError.
Proof.
  induction l as [|x l IH]; simpl; intros H; [discriminate|].
  apply res_bind_no_zde; [auto|]. intros y _.
  apply res_bind_no_zde; [auto|]. discriminate.
Qed.

Lemma res_mapM_total {A B : Type} (f : A -> res B) :
  forall l, (forall x, In x l -> exists y, f x = Ok y) ->
            exists ys, res_mapM f l = Ok ys.
Proof.
  induction l as [|x l IH]; simpl; intros H; [eauto|].
  destruct (H x) as [y ->]; [auto|].
  destruct IH as [ys ->]; [auto|]. simpl. eauto.
Qed.

Lemma dict_lookup_no_zde {V : Type} (k : string) (d : dict V) :
  dict_lookup k d <> Err ZeroDivisionError.
Proof.
  unfold dict_lookup. destruct (dict_get k d); discriminate.
Qed.

Lemma list_index_no_zde (x : string) :
  forall l, list_index x l <> Err ZeroDivisionError.
Proof.
  induction l as [|y l IH]; simpl; [discriminate|].
  destruct (String.eqb x y); [discriminate|].
  apply res_bind_no_zde; [exact IH | discriminate].
Qed.

Lemma py_div_nonzero (x : Q) (n : Z) :
  n <> 0 -> py_div x n = Ok (x / inject_Z n)%Q.
Proof.
  intros H. unfold py_div. apply Z.eqb_neq in H. rewrite H. reflexivity.
Qed.

Lemma avg_distance_no_zde (g : Globals) (p : string) :
  avg_distance g p <> Err ZeroDivisionError.
Proof.
  unfold avg_distance. destruct (0 <? frame_count g) eqn:E; [|discriminate].
  apply Z.ltb_lt in E.
  apply res_bind_no_zde; [apply dict_lookup_no_zde|].
  intros total _. rewrite py_div_nonzero by lia. discriminate.
Qed.

Lemma percentage_of_no_zde (g : Globals) (p : string) :
  percentage_of g p <> Err ZeroDivisionError.
Proof.
  unfold percentage_of. destruct (0 <? frame_count g) eqn:E; [|discriminate].
  apply Z.ltb_lt in E.
  apply res_bind_no_zde; [apply dict_lookup_no_zde|].
  intros c _. rewrite py_div_nonzero by lia. discriminate.
Qed.

Lemma update_table_no_zde (g : Globals) (cd : dict Q) :
  update_table g cd <> Err ZeroDivisionError.
Proof.
  unfold update_table, closest_order, closest_percentage.
  apply res_bind_no_zde.
  { apply res_bind_no_zde; [|discriminate].
    apply res_mapM_no_zde. intros p _.
    apply res_bind_no_zde; [apply list_index_no_zde | discriminate]. }
  intros order _. apply res_bind_no_zde.
  { apply res_bind_no_zde; [|discriminate].
    apply res_mapM_no_zde. intros p _.
    apply res_bind_no_zde; [apply percentage_of_no_zde | discriminate]. }
  intros pct _. apply res_bind_no_zde; [|discriminate].
  apply res_mapM_no_zde. intros [i p] _. unfold table_line.
  destruct (dict_mem p cd); [|discriminate].
  apply res_bind_no_zde; [apply avg_distance_no_zde|]. intros avg _.
  apply res_bind_no_zde; [apply dict_lookup_no_zde|]. intros cur _.
  apply res_bind_no_zde; [apply dict_lookup_no_zde|]. intros rank _.
  apply res_bind_no_zde; [apply dict_lookup_no_zde|]. discriminate.
Qed.

Lemma closest_order_total (sp : list string) :
  exists order,
    closest_order sp = Ok order /\
    forall p, In p sp -> exists r, dict_get p order = Some r.
Proof.
  unfold closest_order.
  destruct (res_mapM_total
              (fun planet => i <~ list_index planet sp ;;
                             Ok (planet, Z.of_nat i + 1)) sp)
    as [kvs Hkvs].
  { intros p Hp. destruct (list_index_In _ _ Hp) as [i ->]. simpl. eauto. }
  rewrite Hkvs. cbn [res_bind]. eexists. split; [reflexivity|].
  intros p Hp. apply dict_of_pairs_has.
  apply mapM_pairs in Hkvs.
  - destruct Hkvs as [-> _]. exact Hp.
  - intros q kv Hq. apply res_bind_Ok in Hq. destruct Hq as [i [_ Hq]].
    inversion Hq. reflexivity.
Qed.

Lemma sorted_planets_has (cd : dict Q) (p : string) (v : Q) :
  In p table_planets -> dict_get p cd = Some v -> In p (sorted_planets cd).
Proof.
  intros Hp Hv. unfold sorted_planets.
  change p with (fst (p, v)). apply in_map.
  eapply Permutation_in; [symmetry; apply sorted_by_perm|].
  apply filter_In. split; [apply dict_get_In; exact Hv|].
  apply table_planets_not_earth. exact Hp.
Qed.

Lemma zero_frames_values (g : Globals) (p : string) :
  frame_count g = 0 ->
  avg_distance g p = Ok 0%Q /\ percentage_of g p = Ok 0%Q.
Proof.
  intros H. unfold avg_distance, percentage_of. rewrite H. auto.
Qed.

Lemma zero_frames_percentage (g : Globals) :
  frame_count g = 0 ->
  closest_percentage g = Ok (dict_const table_planets 0%Q).
Proof.
  intros H. unfold closest_percentage.
  rewrite (res_mapM_ext _ (fun planet => Ok (planet, 0%Q))).
  - reflexivity.
  - intros p _. destruct (zero_frames_values g p H) as [_ ->]. reflexivity.
Qed.

Lemma table_lines_planets (g : Globals) (cd : dict Q) (order : dict Z)
    (pct : dict Q) :
  forall ips lines,
    res_mapM (table_line g cd order pct) ips = Ok lines ->
    map row_planet (List.concat lines) =
    filter (fun p => dict_mem p cd) (map snd ips).
Proof.
  induction ips as [|[i p] ips IH]; simpl; intros lines H.
  - inversion H. reflexivity.
  - apply res_bind_Ok in H. destruct H as [line [Hline H]].
    apply res_bind_Ok in H. destruct H as [lines' [Hlines H]].
    inversion H; subst; clear H. simpl. rewrite map_app, (IH _ Hlines).
    destruct (dict_mem p cd).
    + apply res_bind_Ok in Hline. destruct Hline as [avg [_ Hline]].
      apply res_bind_Ok in Hline. destruct Hline as [cur [_ Hline]].
      apply res_bind_Ok in Hline. destruct Hline as [rank [_ Hline]].
      apply res_bind_Ok in Hline. destruct Hline as [pc [_ Hline]].
      inversion Hline. reflexivity.
    + inversion Hline. reflexivity.
Qed.

Lemma zero_frames_table (g : Globals) (cd : dict Q) :
  frame_count g = 0 -> exists table, update_table g cd = Ok table.
Proof.
  intros H. unfold update_table.
  destruct (closest_order_total (sorted_planets cd)) as [order [-> Hord]].
  rewrite (zero_frames_percentage g H). cbn [res_bind].
  destruct (res_mapM_total
              (table_line g cd order (dict_const table_planets 0%Q))
              (combine (seq 0 (List.length table_planets)) table_planets))
    as [lines ->]; [|simpl; eauto].
  intros [i p] Hip. apply in_combine_r in Hip. unfold table_line.
  unfold dict_mem, dict_lookup.
  destruct (dict_get p cd) as [v|] eqn:Ev; [|eauto].
  destruct (zero_frames_values g p H) as [-> _]. cbn [res_bind].
  destruct (Hord p (sorted_planets_has _ _ _ Hip Ev)) as [r ->].
  cbn [res_bind].
  destruct (dict_of_pairs_has (map (fun k => (k, 0%Q)) table_planets) p)
    as [w Hw].
  { unfold dict_keys. rewrite map_map. simpl. exact Hip. }
  unfold dict_const. rewrite Hw. simpl. eauto.
Qed.

(** C5.  The statistics never divide by zero: every division is behind the
    test [frame_count > 0], so no call of the table update, of the average
    or of the percentage raises [ZeroDivisionError], whatever the globals
    and the distance mapping (where a division by zero itself would
    raise).  With [frame_count] 0 the average and the percentage of every
    Body are 0, and the table update returns, with one line for each table
    Body present in the mapping, each showing average 0 and percentage 0. *)
Theorem statistics_guard_zero_frames (g : Globals) (cd : dict Q) :
  (forall x, py_div x 0 = Err ZeroDivisionError) /\
  update_table g cd <> Err ZeroDivisionError /\
  (forall p, avg_distance g p <> Err ZeroDivisionError /\
             percentage_of g p <> Err ZeroDivisionError) /\
  (forall p a, avg_distance g p = Ok a -> frame_count g <= 0 -> a = 0%Q) /\
  (frame_count g = 0 ->
   (forall p, avg_distance g p = Ok 0%Q /\ percentage_of g p = Ok 0%Q) /\
   closest_percentage g = Ok (dict_const table_planets 0%Q) /\
   exists table,
     update_table g cd = Ok table /\
     map row_planet table = filter (fun p => dict_mem p cd) table_planets /\
     forall row, In row table ->
       row_average row = 0%Q /\ row_percent row = 0%Q).
Proof.
  split; [reflexivity|].
  split; [apply update_table_no_zde|].
  split; [auto using avg_distance_no_zde, percentage_of_no_zde|].
  split.
  { intros p a Ha Hfc. unfold avg_distance in Ha.
    destruct (0 <? frame_count g) eqn:E.
    - apply Z.ltb_lt in E. lia.
    - inversion Ha. reflexivity. }
  intros H. split; [intros p; apply zero_frames_values; exact H|].
  split; [apply zero_frames_percentage; exact H|].
  destruct (zero_frames_table g cd H) as [table Htab].
  exists table. split; [exact Htab|]. split.
  - pose proof Htab as Hrows. unfold update_table in Hrows.
    apply res_bind_Ok in Hrows. destruct Hrows as [order [_ Hrows]].
    apply res_bind_Ok in Hrows. destruct Hrows as [pct [_ Hrows]].
    apply res_bind_Ok in Hrows. destruct Hrows as [lines [Hlines Hrows]].
    inversion Hrows; subst. rewrite (table_lines_planets _ _ _ _ _ _ Hlines).
    reflexivity.
  - intros row Hrow.
    destruct (update_table_rows _ _ _ Htab row Hrow)
      as (_ & _ & Havg & Hpct & _).
    destruct (zero_frames_values g (row_planet row) H) as [Ha Hp].
    rewrite Ha in Havg. rewrite Hp in Hpct.
    inversion Havg. inversion Hpct. auto.
Qed.

(** Before any frame, with distances for Mercury and Mars only. *)
Lemma statistics_guard_zero_frames_witness :
  frame_count one_year_started = 0 /\
  exists table,
    update_table one_year_started [("Mars", 3 # 2); ("Mercury", 1 # 1)]%Q
      = Ok table /\
    map row_planet table = ["Mercury"; "Mars"] /\
    forall row, In row table ->
      row_average row = 0%Q /\ row_percent row = 0%Q.
Proof.
  split; [reflexivity|].
  apply (statistics_guard_zero_frames one_year_started
           [("Mars", 3 # 2); ("Mercury", 1 # 1)]%Q).
  reflexivity.
Defined.

(** ** The date sequence *)

Lemma ceil_div_spec (a b : Z) :
  0 < b -> (ceil_div a b - 1) * b < a <= ceil_div a b * b.
Proof.
  intros Hb. unfold ceil_div.
  pose proof (Z.div_mod (- a) b ltac:(lia)) as Hdm.
  pose proof (Z.mod_pos_bound (- a) b Hb) as Hm.
  nia.
Qed.

Lemma range_len_ceil (n d : Z) :
  0 < d -> 0 <= n -> range_len 0 n d = ceil_div n d.
Proof.
  intros Hd Hn. unfold range_len, ceil_div.
  apply Z.ltb_lt in Hd as Hd'. rewrite Hd'.
  destruct (0 <? n) eqn:E.
  - apply Z.ltb_lt in E.
    pose proof (Z.div_mod (n - 0 - 1) d ltac:(lia)) as Hdm.
    pose proof (Z.mod_pos_bound (n - 0 - 1) d Hd) as Hm.
    assert (Hq : - ((n - 0 - 1) / d + 1) = (- n) / d).
    { apply (Z.div_unique _ _ _ (d - 1 - (n - 0 - 1) mod d)); lia. }
    lia.
  - apply Z.ltb_ge in E. assert (n = 0) by lia. subst n. reflexivity.
Qed.

(** For a positive step the number of items is the ceiling, cut at zero
    when the stop lies before the start. *)
Lemma range_len_ceil_max (n d : Z) :
  0 < d -> range_len 0 n d = Z.max 0 (ceil_div n d).
Proof.
  intros Hd. destruct (Z.le_gt_cases 0 n) as [Hn|Hn].
  - rewrite range_len_ceil by assumption.
    pose proof (ceil_div_spec n d Hd). nia.
  - unfold range_len. apply Z.ltb_lt in Hd as Hd'. rewrite Hd'.
    destruct (0 <? n) eqn:E; [apply Z.ltb_lt in E; lia|].
    pose proof (ceil_div_spec n d Hd). nia.
Qed.

Lemma update_dates_state (g : Globals) :
  step_days g <> 0 ->
  update_dates g =
  (Ok tt,
   set_dates
     (map (mkTimePoint (start_year g))
        (map (fun i => 0 + Z.of_nat i * step_days g)
           (seq 0 (Z.to_nat
                     (range_len 0 ((end_year g - start_year g) * 365)
                        (step_days g)))))) g).
Proof.
  intros H. apply Z.eqb_neq in H.
  unfold update_dates, bind, get, lift, modify, py_range.
  rewrite H. reflexivity.
Qed.

Lemma nth_error_map_seq {A : Type} (f : nat -> A) (n k : nat) :
  (k < n)%nat -> nth_error (map f (seq 0 n)) k = Some (f k).
Proof.
  intros H. rewrite nth_error_map, nth_error_seq.
  apply Nat.ltb_lt in H. rewrite H. reflexivity.
Qed.

(** C4.  With a positive step [d] and an end year [e] not before the start
    year [s], the date generator returns and leaves a sequence of exactly
    [ceil((e - s) * 365 / d)] time points, the one at position [k] being
    [k * d] days after 1 January of year [s] (so the first is that day and
    each next one is [d] days later); for 2000, 2001 and 1 they are 365. *)
Theorem update_dates_sequence (g : Globals) :
  0 < step_days g ->
  start_year g <= end_year g ->
  fst (update_dates g) = Ok tt /\
  Z.of_nat (List.length (dates (snd (update_dates g)))) =
    ceil_div ((end_year g - start_year g) * 365) (step_days g) /\
  (forall k, (k < List.length (dates (snd (update_dates g))))%nat ->
     nth_error (dates (snd (update_dates g))) k =
       Some (mkTimePoint (start_year g) (Z.of_nat k * step_days g))) /\
  (start_year g = 2000 -> end_year g = 2001 -> step_days g = 1 ->
   List.length (dates (snd (update_dates g))) = 365%nat).
Proof.
  intros Hd Hse.
  rewrite update_dates_state by lia.
  cbn [fst snd dates set_dates].
  rewrite !length_map, length_seq.
  assert (Hn : 0 <= (end_year g - start_year g) * 365) by lia.
  rewrite (range_len_ceil _ _ Hd Hn).
  pose proof (ceil_div_spec ((end_year g - start_year g) * 365) _ Hd) as Hc.
  assert (Hpos : 0 <= ceil_div ((end_year g - start_year g) * 365)
                         (step_days g)) by nia.
  split; [reflexivity|]. split; [|split].
  - apply Z2Nat.id. exact Hpos.
  - intros k Hk. rewrite map_map. rewrite nth_error_map_seq by exact Hk.
    reflexivity.
  - intros -> -> ->. reflexivity.
Qed.

(** The year 2000 to 2001, one day at a time. *)
Lemma update_dates_sequence_witness :
  0 < step_days one_year_globals /\
  start_year one_year_globals <= end_year one_year_globals /\
  fst (update_dates one_year_globals) = Ok tt /\
  List.length (dates (snd (update_dates one_year_globals))) = 365%nat /\
  nth_error (dates (snd (update_dates one_year_globals))) 0
    = Some (mkTimePoint 2000 0) /\
  nth_error (dates (snd (update_dates one_year_globals))) 364
    = Some (mkTimePoint 2000 364).
Proof.
  assert (H1 : 0 < step_days one_year_globals) by reflexivity.
  assert (H2 : start_year one_year_globals <= end_year one_year_globals)
    by discriminate.
  destruct (update_dates_sequence one_year_globals H1 H2)
    as (Hok & _ & Hnth & Hlen).
  specialize (Hlen eq_refl eq_refl eq_refl).
  split; [exact H1|]. split; [exact H2|]. split; [exact Hok|].
  split; [exact Hlen|]. split.
  - apply (Hnth 0%nat). rewrite Hlen. lia.
  - apply (Hnth 364%nat). rewrite Hlen. lia.
Defined.

(** ** The text boxes *)

Lemma start_simulation_dates (g : Globals) :
  step_days g <> 0 ->
  dates (snd (start_simulation g)) =
  map (mkTimePoint (start_year g))
    (map (fun i => 0 + Z.of_nat i * step_days g)
       (seq 0 (Z.to_nat
                 (range_len 0 ((end_year g - start_year g) * 365)
                    (step_days g))))).
Proof.
  intros H. unfold start_simulation, bind. rewrite reset_state.
  rewrite update_dates_state by exact H.
  unfold get, modify. reflexivity.
Qed.

(** The dates a start builds from the settings the module is loaded
    with. *)
Lemma start_dates_default (g : Globals) :
  start_year g = 0 -> end_year g = 2999 -> step_days g = 1 ->
  Z.of_nat (List.length (dates (snd (start_simulation g)))) = 1094635 /\
  nth_error (dates (snd (start_simulation g))) 0 = Some (mkTimePoint 0 0).
Proof.
  intros Hs He Hd.
  rewrite start_simulation_dates by (rewrite Hd; discriminate).
  rewrite Hs, He, Hd.
  replace (range_len 0 ((2999 - 0) * 365) 1) with 1094635
    by (vm_compute; reflexivity).
  split.
  - rewrite !length_map, length_seq. apply Z2Nat.id. discriminate.
  - rewrite map_map, nth_error_map_seq; [reflexivity|].
    apply Nat2Z.inj_lt. rewrite Z2Nat.id by discriminate. reflexivity.
Qed.

(** C2, what the script does.  The text typed into the two year boxes never
    reaches the date generator: the start button builds the same dates
    whatever the boxes hold, from the [start_year] and [end_year] globals,
    which typing leaves alone.  After typing 2000 and 2001 on the freshly
    loaded module and pressing start, the sequence still has the
    2999 * 365 = 1094635 points of the years 0 to 2999 and begins in
    year 0. *)
Theorem start_ignores_year_textboxes :
  (forall (g : Globals) (s e : string),
     start_year (snd (type_end_year e (snd (type_start_year s g))))
       = start_year g /\
     end_year (snd (type_end_year e (snd (type_start_year s g))))
       = end_year g /\
     textbox_start (snd (type_end_year e (snd (type_start_year s g)))) = s /\
     textbox_end (snd (type_end_year e (snd (type_start_year s g)))) = e /\
     dates (snd (start_simulation
                   (snd (type_end_year e (snd (type_start_year s g))))))
       = dates (snd (start_simulation g))) /\
  Z.of_nat
    (List.length
       (dates (snd (start_simulation
                      (snd (type_end_year "2001"
                              (snd (type_start_year "2000" module_globals))))))))
    = 1094635 /\
  nth_error
    (dates (snd (start_simulation
                   (snd (type_end_year "2001"
                           (snd (type_start_year "2000" module_globals)))))))
    0 = Some (mkTimePoint 0 0).
Proof.
  split.
  { intros g s e. repeat split.
    unfold start_simulation, bind. rewrite !reset_state.
    unfold update_dates, bind, get, lift, modify, type_end_year,
      type_start_year.
    cbn [snd start_year end_year step_days set_textbox_end set_textbox_start
         set_distance_sums set_closest_counts set_frame_count].
    destruct (py_range _ _ _); reflexivity. }
  apply start_dates_default; reflexivity.
Qed.

(** ** A failing lookup *)

(** C6, what the script does.  When a lookup of the frame raises, [update]
    raises the same exception with [frame_count] already incremented and
    with [closest_counts] and [distance_sums] untouched, so the counts no
    longer add up to [frame_count] if they did before. *)
Theorem lookup_failure_keeps_increment
    (sqrt_au : Q -> Q) (eph : Ephemeris) (frame : nat) (g : Globals)
    (date : TimePoint) (e : exn) :
  nth_error (dates g) frame = Some date ->
  frame_geometry sqrt_au eph date = Err e ->
  update sqrt_au eph frame g = (Err e, set_frame_count (frame_count g + 1) g) /\
  frame_count (snd (update sqrt_au eph frame g)) = frame_count g + 1 /\
  closest_counts (snd (update sqrt_au eph frame g)) = closest_counts g /\
  distance_sums (snd (update sqrt_au eph frame g)) = distance_sums g /\
  (sum_values (closest_counts g) = frame_count g ->
   sum_values (closest_counts (snd (update sqrt_au eph frame g)))
     <> frame_count (snd (update sqrt_au eph frame g))).
Proof.
  intros Hdate Hgeo.
  assert (H : update sqrt_au eph frame g
              = (Err e, set_frame_count (frame_count g + 1) g)).
  { unfold update, bind, get, lift, modify, index.
    rewrite Hdate, Hgeo. reflexivity. }
  rewrite H. cbn [snd frame_count closest_counts distance_sums
                  set_frame_count].
  repeat split. lia.
Qed.

(** The first frame after a start of the module as loaded, whose dates
    begin in year 0, on an ephemeris that has no data before year 1. *)
Lemma lookup_failure_keeps_increment_witness :
  nth_error (dates module_started) 0 = Some (mkTimePoint 0 0) /\
  frame_geometry Qsqrt (toy_eph 1 1) (mkTimePoint 0 0)
    = Err EphemerisRangeError /\
  sum_values (closest_counts module_started) = frame_count module_started /\
  fst (update Qsqrt (toy_eph 1 1) 0 module_started)
    = Err EphemerisRangeError /\
  frame_count (snd (update Qsqrt (toy_eph 1 1) 0 module_started)) = 1 /\
  sum_values
    (closest_counts (snd (update Qsqrt (toy_eph 1 1) 0 module_started)))
    = 0.
Proof.
  assert (H1 : nth_error (dates module_started) 0 = Some (mkTimePoint 0 0)).
  { apply (start_dates_default module_globals); reflexivity. }
  assert (H2 : frame_geometry Qsqrt (toy_eph 1 1) (mkTimePoint 0 0)
               = Err EphemerisRangeError) by reflexivity.
  destruct (start_simulation_stats module_globals) as (Hfc0 & Hcc0 & _).
  fold module_started in Hfc0, Hcc0.
  destruct (lookup_failure_keeps_increment Qsqrt (toy_eph 1 1) 0
              module_started _ _ H1 H2) as (Hup & Hfc & Hcc & _).
  split; [exact H1|]. split; [exact H2|].
  split; [rewrite Hfc0, Hcc0; reflexivity|].
  rewrite Hfc, Hcc, Hup, Hfc0, Hcc0. repeat split.
Defined.

(** ** Determinism *)

Lemma heliocentric_lookup (eph : Ephemeris) (sun : Segment) (name : string)
    (date : TimePoint) :
  heliocentric eph sun name date =
  res_bind (lookup eph name date) (fun p =>
  res_bind (position_au sun date) (fun s => Ok (vsub p s))).
Proof.
  unfold heliocentric, lookup, eph_getitem.
  destruct (eph name); reflexivity.
Qed.

Lemma planet_map_target (p target : string) :
  dict_lookup p planet_map = Ok target -> In target queried_bodies.
Proof.
  intros H. apply dict_lookup_Ok, dict_get_In in H.
  right. change target with (snd (p, target)). apply in_map. exact H.
Qed.

Lemma frame_geometry_ext (sqrt_au : Q -> Q) (eph1 eph2 : Ephemeris)
    (date : TimePoint) :
  (forall name, In name queried_bodies ->
                lookup eph1 name date = lookup eph2 name date) ->
  frame_geometry sqrt_au eph1 date = frame_geometry sqrt_au eph2 date.
Proof.
  intros H.
  assert (Hsun := H "SUN" (or_introl eq_refl)).
  unfold frame_geometry, eph_getitem. unfold lookup, eph_getitem in Hsun.
  destruct (eph1 "SUN") as [sun1|], (eph2 "SUN") as [sun2|];
    cbn [res_bind] in *.
  - assert (Hh : forall name, In name queried_bodies ->
                   heliocentric eph1 sun1 name date
                   = heliocentric eph2 sun2 name date).
    { intros name Hname.
      rewrite !heliocentric_lookup, (H name Hname), Hsun. reflexivity. }
    rewrite (Hh "EARTH") by (simpl; auto).
    rewrite (res_mapM_ext (planet_position eph1 sun1 date)
                          (planet_position eph2 sun2 date)); [reflexivity|].
    intros p _. unfold planet_position.
    destruct (dict_lookup p planet_map) as [target|] eqn:E; [|reflexivity].
    cbn [res_bind]. rewrite (Hh target (planet_map_target _ _ E)).
    reflexivity.
  - unfold position_au in Hsun. destruct (sun1 date); discriminate.
  - unfold position_au in Hsun. destruct (sun2 date); discriminate.
  - reflexivity.
Qed.

Lemma update_ext (sqrt_au : Q -> Q) (eph1 eph2 : Ephemeris) (frame : nat)
    (g : Globals) :
  (forall date, nth_error (dates g) frame = Some date ->
     frame_geometry sqrt_au eph1 date = frame_geometry sqrt_au eph2 date) ->
  update sqrt_au eph1 frame g = update sqrt_au eph2 frame g.
Proof.
  intros H. unfold update, bind, get, lift, modify, index.
  destruct (nth_error (dates g) frame) as [date|]; [|reflexivity].
  rewrite (H date eq_refl). reflexivity.
Qed.

(** C9.  A frame is a function of what the ephemeris answers at its date:
    if two ephemerides give the same answers for the Sun and for every
    planet at the date of the frame, the frame run on a freshly reset state
    with one and with the other gives the same result and the same state,
    so the same per-Body distances, the same ranks and the same closest
    Body. *)
Theorem update_deterministic
    (sqrt_au : Q -> Q) (eph1 eph2 : Ephemeris) (frame : nat) (g : Globals) :
  (forall date name,
     nth_error (dates g) frame = Some date ->
     In name queried_bodies ->
     lookup eph1 name date = lookup eph2 name date) ->
  update sqrt_au eph1 frame (snd (reset g))
    = update sqrt_au eph2 frame (snd (reset g)) /\
  (forall out1 out2 g1 g2,
     update sqrt_au eph1 frame (snd (reset g)) = (Ok out1, g1) ->
     update sqrt_au eph2 frame (snd (reset g)) = (Ok out2, g2) ->
     fo_current_distances out1 = fo_current_distances out2 /\
     map row_rank (fo_table out1) = map row_rank (fo_table out2) /\
     fo_closest out1 = fo_closest out2 /\
     g1 = g2).
Proof.
  intros H.
  assert (Heq : update sqrt_au eph1 frame (snd (reset g))
                = update sqrt_au eph2 frame (snd (reset g))).
  { apply update_ext. intros date Hdate. apply frame_geometry_ext.
    intros name Hname. apply (H date name); [|exact Hname].
    rewrite reset_state in Hdate. exact Hdate. }
  split; [exact Heq|].
  intros out1 out2 g1 g2 H1 H2. rewrite Heq, H2 in H1.
  inversion H1; subst. auto.
Qed.

(** Two ephemerides that agree on the first day and differ afterwards. *)
Lemma update_deterministic_witness :
  lookup (toy_eph 0 1) "MERCURY" (mkTimePoint 2000 1)
    <> lookup (toy_eph 0 2) "MERCURY" (mkTimePoint 2000 1) /\
  update Qsqrt (toy_eph 0 1) 0 (snd (reset one_year_started))
    = update Qsqrt (toy_eph 0 2) 0 (snd (reset one_year_started)).
Proof.
  split; [vm_compute; discriminate|].
  apply (update_deterministic Qsqrt (toy_eph 0 1) (toy_eph 0 2) 0
           one_year_started).
  intros date name Hdate Hname.
  assert (Hd : date = mkTimePoint 2000 0).
  { vm_compute in Hdate. inversion Hdate. reflexivity. }
  subst date. unfold queried_bodies in Hname. simpl in Hname.
  repeat (destruct Hname as [<-|Hname]; [vm_compute; reflexivity|]).
  contradiction.
Defined.

(** * Further properties of the script *)

(** ** Dates for any year settings *)

Lemma range_len_bound (n d k : Z) :
  0 < d -> 0 <= k < range_len 0 n d -> 0 <= k * d < n.
Proof.
  intros Hd Hk. unfold range_len in Hk.
  apply Z.ltb_lt in Hd as Hd'. rewrite Hd' in Hk.
  destruct (0 <? n) eqn:E; [|lia].
  pose proof (Z.div_mod (n - 0 - 1) d ltac:(lia)) as Hdm.
  pose proof (Z.mod_pos_bound (n - 0 - 1) d Hd) as Hm.
  nia.
Qed.

(** X1.  With a positive step, whatever the two years, the date generator
    leaves [max(0, ceil((end - start) * 365 / step))] time points; every
    one of them lies a multiple of the step, at least 0 and less than
    [(end - start) * 365] days, after 1 January of the start year; the
    list is empty exactly when the end year is not after the start year. *)
Theorem update_dates_any_years (g : Globals) :
  0 < step_days g ->
  fst (update_dates g) = Ok tt /\
  Z.of_nat (List.length (dates (snd (update_dates g)))) =
    Z.max 0 (ceil_div ((end_year g - start_year g) * 365) (step_days g)) /\
  (forall tp, In tp (dates (snd (update_dates g))) ->
     tp_year tp = start_year g /\
     0 <= tp_offset tp < (end_year g - start_year g) * 365 /\
     exists k, tp_offset tp = Z.of_nat k * step_days g) /\
  (dates (snd (update_dates g)) = [] <-> end_year g <= start_year g).
Proof.
  intros Hd.
  rewrite update_dates_state by lia.
  cbn [fst snd dates set_dates].
  set (n := (end_year g - start_year g) * 365).
  set (len := range_len 0 n (step_days g)).
  assert (Hlen : len = Z.max 0 (ceil_div n (step_days g)))
    by (apply range_len_ceil_max; exact Hd).
  assert (Hlen0 : 0 <= len) by lia.
  split; [reflexivity|]. split; [|split].
  - rewrite !length_map, length_seq, Z2Nat.id by exact Hlen0. exact Hlen.
  - intros tp Htp. rewrite map_map in Htp. apply in_map_iff in Htp.
    destruct Htp as [k [<- Hk]]. apply in_seq in Hk.
    cbn [tp_year tp_offset]. split; [reflexivity|]. split.
    + rewrite Z.add_0_l. apply range_len_bound; [exact Hd|].
      fold len. lia.
    + exists k. lia.
  - pose proof (ceil_div_spec n (step_days g) Hd) as Hc.
    split.
    + intros Hnil. apply (f_equal (@List.length _)) in Hnil.
      rewrite !length_map, length_seq in Hnil. simpl in Hnil.
      assert (len <= 0) by lia. subst n. nia.
    + intros Hle. assert (Hz : len = 0) by (subst n; nia).
      rewrite Hz. reflexivity.
Qed.

(** End year before start year: no dates. *)
Lemma update_dates_any_years_witness :
  0 < step_days (mkGlobals 2001 2000 1 [] [] [] 0 None "" "") /\
  dates (snd (update_dates (mkGlobals 2001 2000 1 [] [] [] 0 None "" ""))) = [].
Proof.
  assert (H : 0 < step_days (mkGlobals 2001 2000 1 [] [] [] 0 None "" ""))
    by reflexivity.
  split; [exact H|].
  destruct (update_dates_any_years _ H) as (_ & _ & _ & Hnil).
  apply Hnil. discriminate.
Defined.

(** X2.  With a step of 0, [update_dates] raises [ValueError] and changes
    nothing, and the start button raises it too: the statistics are reset
    by then, while the dates and the animation are as before, so no
    animation is created and no timer is started. *)
Theorem zero_step_start_fails (g : Globals) :
  step_days g = 0 ->
  update_dates g = (Err ValueError, g) /\
  fst (start_simulation g) = Err ValueError /\
  snd (start_simulation g) = snd (reset g) /\
  dates (snd (start_simulation g)) = dates g /\
  ani (snd (start_simulation g)) = ani g.
Proof.
  intros H.
  assert (Hud : forall g0, step_days g0 = 0 ->
                           update_dates g0 = (Err ValueError, g0)).
  { intros g0 H0. unfold update_dates, bind, get, lift, py_range.
    rewrite H0. reflexivity. }
  split; [apply Hud; exact H|].
  unfold start_simulation, bind. rewrite reset_state.
  rewrite Hud by exact H. cbn [fst snd]. auto.
Qed.

Lemma zero_step_start_fails_witness :
  fst (start_simulation (mkGlobals 0 2999 0 [] [] [] 7 None "0" "2999"))
    = Err ValueError /\
  ani (snd (start_simulation (mkGlobals 0 2999 0 [] [] [] 7 None "0" "2999")))
    = None.
Proof.
  destruct (zero_step_start_fails
              (mkGlobals 0 2999 0 [] [] [] 7 None "0" "2999") eq_refl)
    as (_ & Hr & _ & _ & Ha).
  split; [exact Hr | exact Ha].
Defined.

(** ** The animation across starts *)

(** X3.  The start button creates the animation once.  With a usable step
    it returns with the timer running and with: a new animation over as
    many frames as there are dates, placed at frame 0, when none existed;
    the existing animation otherwise, its number of frames and its next
    frame untouched, although the dates were rebuilt and the statistics
    reset.  A restart therefore resumes at the frame where the animation
    stood and does not rewind it. *)
Theorem start_keeps_animation (g : Globals) :
  step_days g <> 0 ->
  ani (snd (start_simulation g)) =
    Some (mkAni (resume_frames g (List.length (dates (snd (update_dates g)))))
                (resume_frame g) true) /\
  dates (snd (start_simulation g)) = dates (snd (update_dates g)) /\
  frame_count (snd (start_simulation g)) = 0.
Proof.
  intros H. unfold start_simulation, bind. rewrite reset_state.
  rewrite !update_dates_state by exact H.
  unfold get, modify, resume_frame, resume_frames.
  cbn. destruct (ani g) as [a|]; auto.
Qed.

(** A second start after 100 frames of a 365-frame animation. *)
Lemma start_keeps_animation_witness :
  ani (snd (start_simulation
              (set_frame_count 100
                 (set_ani (Some (mkAni 365 100 false)) one_year_started))))
  = Some (mkAni 365 100 true).
Proof.
  apply (start_keeps_animation
           (set_frame_count 100
              (set_ani (Some (mkAni 365 100 false)) one_year_started))).
  discriminate.
Defined.

(** ** What a frame leaves alone *)

Lemma keeps_ret {A : Type} (a : A) : keeps_fixed (ret a).
Proof. intros g r g' H. inversion H. reflexivity. Qed.

Lemma keeps_get : keeps_fixed get.
Proof. intros g r g' H. inversion H. reflexivity. Qed.

Lemma keeps_lift {A : Type} (x : res A) : keeps_fixed (lift x).
Proof. intros g r g' H. inversion H. reflexivity. Qed.

Lemma keeps_modify (f : Globals -> Globals) :
  (forall g, frame_fixed (f g) = frame_fixed g) -> keeps_fixed (modify f).
Proof. intros Hf g r g' H. inversion H. apply Hf. Qed.

Lemma keeps_bind {A B : Type} (c : M A) (k : A -> M B) :
  keeps_fixed c -> (forall a, keeps_fixed (k a)) -> keeps_fixed (bind c k).
Proof.
  intros Hc Hk g r g' H. unfold bind in H.
  destruct (c g) as [[a|e] g1] eqn:E.
  - rewrite (Hk a _ _ _ H). apply (Hc _ _ _ E).
  - inversion H; subst. apply (Hc _ _ _ E).
Qed.

Lemma dict_keys_set {V : Type} (k : string) (old v : V) :
  forall d, dict_get k d = Some old -> dict_keys (dict_set k v d) = dict_keys d.
Proof.
  induction d as [|[k' v'] d IH]; simpl; intros H; [discriminate|].
  destruct (String.eqb k k') eqn:E; simpl.
  - apply String.eqb_eq in E. subst. reflexivity.
  - rewrite IH by exact H. reflexivity.
Qed.

Lemma keeps_add_distance (p : string) (d : Q) : keeps_fixed (add_distance p d).
Proof.
  intros g r g'. unfold add_distance, bind, get, lift, modify, dict_lookup.
  destruct (dict_get p (distance_sums g)) as [old|] eqn:E;
    intros H; inversion H; subst; [|reflexivity].
  unfold frame_fixed.
  cbn [start_year end_year step_days dates ani textbox_start textbox_end
       closest_counts distance_sums set_distance_sums].
  rewrite (dict_keys_set _ old) by exact E. reflexivity.
Qed.

Lemma keeps_count_closest (p : string) : keeps_fixed (count_closest p).
Proof.
  intros g r g'. unfold count_closest, bind, get, lift, modify, dict_lookup.
  destruct (dict_get p (closest_counts g)) as [old|] eqn:E;
    intros H; inversion H; subst; [|reflexivity].
  unfold frame_fixed.
  cbn [start_year end_year step_days dates ani textbox_start textbox_end
       closest_counts distance_sums set_closest_counts].
  rewrite (dict_keys_set _ old) by exact E. reflexivity.
Qed.

Lemma keeps_for_each {A : Type} (body : A -> M unit) :
  (forall x, keeps_fixed (body x)) ->
  forall l, keeps_fixed (for_each l body).
Proof.
  intros Hb. induction l as [|x l IH]; simpl.
  - apply keeps_ret.
  - apply keeps_bind; auto.
Qed.

Lemma update_keeps (sqrt_au : Q -> Q) (eph : Ephemeris) (frame : nat) :
  keeps_fixed (update sqrt_au eph frame).
Proof.
  unfold update.
  apply keeps_bind; [apply keeps_get|]. intros g0.
  apply keeps_bind; [apply keeps_lift|]. intros date.
  apply keeps_bind; [apply keeps_modify; reflexivity|]. intros _.
  apply keeps_bind; [apply keeps_lift|]. intros [[earth pps] ds].
  apply keeps_bind; [apply keeps_lift|]. intros i.
  apply keeps_bind; [apply keeps_lift|]. intros closest.
  apply keeps_bind.
  { apply keeps_for_each. intros pd. apply keeps_add_distance. }
  intros _. apply keeps_bind.
  { destruct (truthy closest);
      [apply keeps_count_closest | apply keeps_ret]. }
  intros _. apply keeps_bind; [apply keeps_get|]. intros g1.
  apply keeps_bind; [apply keeps_lift|]. intros table.
  apply keeps_ret.
Qed.

(** X4.  However a frame ends, by returning or by raising at any point, it
    has changed nothing but [frame_count] and values of the two statistics
    dictionaries: the year settings, the step, the dates, the animation
    and the text boxes are as before, and both dictionaries hold the same
    keys in the same order. *)
Theorem update_keeps_fixed
    (sqrt_au : Q -> Q) (eph : Ephemeris) (frame : nat) (g g' : Globals)
    (r : res FrameOutput) :
  update sqrt_au eph frame g = (r, g') ->
  start_year g' = start_year g /\
  end_year g' = end_year g /\
  step_days g' = step_days g /\
  dates g' = dates g /\
  ani g' = ani g /\
  textbox_start g' = textbox_start g /\
  textbox_end g' = textbox_end g /\
  dict_keys (closest_counts g') = dict_keys (closest_counts g) /\
  dict_keys (distance_sums g') = dict_keys (distance_sums g).
Proof.
  intros H. apply update_keeps in H. unfold frame_fixed in H.
  inversion H. auto 10.
Qed.

(** A frame that raises half way: the ephemeris has no data for its date. *)
Lemma update_keeps_fixed_witness :
  fst (update Qsqrt (toy_eph 2001 1) 0 one_year_started)
    = Err EphemerisRangeError /\
  dates (snd (update Qsqrt (toy_eph 2001 1) 0 one_year_started))
    = dates one_year_started /\
  dict_keys (closest_counts
               (snd (update Qsqrt (toy_eph 2001 1) 0 one_year_started)))
    = planets.
Proof.
  destruct (update Qsqrt (toy_eph 2001 1) 0 one_year_started)
    as [r g'] eqn:E.
  destruct (update_keeps_fixed _ _ _ _ _ _ E)
    as (_ & _ & _ & Hd & _ & _ & _ & Hk & _).
  cbn [fst snd]. split; [|split; [exact Hd | rewrite Hk; reflexivity]].
  change r with (fst (r, g')). rewrite <- E. vm_compute. reflexivity.
Defined.

(** ** The exceptions of a frame *)

Lemma bind_Err {A B : Type} (c : M A) (k : A -> M B) g e g' :
  bind c k g = (Err e, g') ->
  c g = (Err e, g') \/
  exists a g1, c g = (Ok a, g1) /\ k a g1 = (Err e, g').
Proof.
  unfold bind. destruct (c g) as [[a|e0] g1]; intros H; [eauto|].
  inversion H; subst. auto.
Qed.

Section Errors.

(** The exceptions a computation may raise. *)
Variable allowed : exn -> Prop.

Lemma res_bind_errs {A B : Type} (r : res A) (k : A -> res B) :
  (forall e, r = Err e -> allowed e) ->
  (forall a e, r = Ok a -> k a = Err e -> allowed e) ->
  forall e, res_bind r k = Err e -> allowed e.
Proof.
  destruct r as [a|e0]; simpl; intros Hr Hk e H; [eauto|].
  inversion H; subst. auto.
Qed.

Lemma res_mapM_errs {A B : Type} (f : A -> res B) :
  forall l, (forall x e, In x l -> f x = Err e -> allowed e) ->
            forall e, res_mapM f l = Err e -> allowed e.
Proof.
  induction l as [|x l IH]; simpl; intros H e He; [discriminate|].
  revert e He. apply res_bind_errs; [intros e He; eapply H; eauto|].
  intros y e _. apply res_bind_errs; [|discriminate].
  apply IH. intros z e' Hz. apply H. auto.
Qed.

End Errors.

Lemma dict_lookup_errs {V : Type} (k : string) (d : dict V) :
  forall e, dict_lookup k d = Err e -> e = KeyError.
Proof.
  unfold dict_lookup. destruct (dict_get k d); intros e H; inversion H.
  reflexivity.
Qed.

Ltac errs P :=
  cbv beta;
  lazymatch goal with
  | |- forall e, res_bind _ _ = Err e -> _ => apply (res_bind_errs P)
  | |- forall e, res_mapM _ _ = Err e -> _ => apply (res_mapM_errs P)
  end;
  cbv beta.

Lemma percentage_of_errs (g : Globals) (p : string) :
  forall e, percentage_of g p = Err e -> e = KeyError.
Proof.
  unfold percentage_of. destruct (0 <? frame_count g) eqn:E; [|discriminate].
  apply Z.ltb_lt in E.
  errs (fun e => e = KeyError); [apply dict_lookup_errs|].
  intros c e _. rewrite py_div_nonzero by lia. discriminate.
Qed.

Lemma avg_distance_errs (g : Globals) (p : string) :
  forall e, avg_distance g p = Err e -> e = KeyError.
Proof.
  unfold avg_distance. destruct (0 <? frame_count g) eqn:E; [|discriminate].
  apply Z.ltb_lt in E.
  errs (fun e => e = KeyError); [apply dict_lookup_errs|].
  intros c e _. rewrite py_div_nonzero by lia. discriminate.
Qed.

(** The table update raises nothing but [KeyError]. *)
Lemma update_table_errs (g : Globals) (cd : dict Q) :
  forall e, update_table g cd = Err e -> e = KeyError.
Proof.
  unfold update_table.
  destruct (closest_order_total (sorted_planets cd)) as [order [-> _]].
  cbn [res_bind]. errs (fun e => e = KeyError).
  { unfold closest_percentage.
    errs (fun e => e = KeyError); [|discriminate].
    errs (fun e => e = KeyError). intros p e _. revert e.
    errs (fun e => e = KeyError); [apply percentage_of_errs | discriminate]. }
  intros pct e _. revert e.
  errs (fun e => e = KeyError); [|discriminate].
  errs (fun e => e = KeyError). intros [i p] e _. revert e.
  unfold table_line.
  destruct (dict_mem p cd); [|discriminate].
  errs (fun e => e = KeyError); [apply avg_distance_errs|].
  intros avg e _; revert e.
  errs (fun e => e = KeyError); [apply dict_lookup_errs|].
  intros cur e _; revert e.
  errs (fun e => e = KeyError); [apply dict_lookup_errs|].
  intros rank e _; revert e.
  errs (fun e => e = KeyError); [apply dict_lookup_errs|]. discriminate.
Qed.

Lemma for_each_add_distance_any :
  forall (kvs : dict Q) (g g' : Globals) (r : res unit),
    for_each kvs (fun pd => add_distance (fst pd) (snd pd)) g = (r, g') ->
    frame_count g' = frame_count g /\
    (forall e, r = Err e -> e = KeyError).
Proof.
  induction kvs as [|[k v] kvs IH]; simpl; intros g g' r H.
  - inversion H; subst. split; [reflexivity | discriminate].
  - unfold bind in H.
    destruct (add_distance k v g) as [[[]|e0] g1] eqn:E.
    + apply add_distance_Ok in E. destruct E as [old [_ ->]].
      apply IH in H. exact H.
    + inversion H; subst.
      unfold add_distance, bind, get, lift, modify, dict_lookup in E.
      destruct (dict_get k (distance_sums g)); inversion E; subst.
      split; [reflexivity|]. intros e He. inversion He. reflexivity.
Qed.

Lemma count_closest_any (p : string) (g g' : Globals) (r : res unit) :
  count_closest p g = (r, g') ->
  frame_count g' = frame_count g /\
  (forall e, r = Err e -> e = KeyError).
Proof.
  unfold count_closest, bind, get, lift, modify, dict_lookup.
  destruct (dict_get p (closest_counts g)); intros H; inversion H; subst;
    (split; [reflexivity|]); intros e He; inversion He; reflexivity.
Qed.

Section FrameErrors.

Variable sqrt_au : Q -> Q.
Variable eph : Ephemeris.

Lemma heliocentric_errs (sun : Segment) (name : string) (date : TimePoint) :
  forall e, heliocentric eph sun name date = Err e ->
            e = KeyError \/ e = EphemerisRangeError.
Proof.
  unfold heliocentric, eph_getitem, position_au.
  destruct (eph name) as [seg|]; cbn [res_bind];
    [|intros e H; inversion H; auto].
  destruct (seg date); cbn [res_bind]; [|intros e H; inversion H; auto].
  destruct (sun date); cbn [res_bind]; intros e H; inversion H; auto.
Qed.

(** The lookups of a frame raise a [KeyError] (no such body) or a range
    error (no data for the date). *)
Lemma frame_geometry_errs (date : TimePoint) :
  forall e, frame_geometry sqrt_au eph date = Err e ->
            e = KeyError \/ e = EphemerisRangeError.
Proof.
  unfold frame_geometry.
  errs (fun e => e = KeyError \/ e = EphemerisRangeError).
  { unfold eph_getitem. destruct (eph "SUN"); intros e H; inversion H; auto. }
  intros sun e _; revert e.
  errs (fun e => e = KeyError \/ e = EphemerisRangeError);
    [apply heliocentric_errs|].
  intros earth e _; revert e.
  errs (fun e => e = KeyError \/ e = EphemerisRangeError); [|discriminate].
  errs (fun e => e = KeyError \/ e = EphemerisRangeError).
  intros p e _; revert e. unfold planet_position.
  errs (fun e => e = KeyError \/ e = EphemerisRangeError).
  { intros e H. left. eapply dict_lookup_errs; eauto. }
  intros target e _; revert e.
  errs (fun e => e = KeyError \/ e = EphemerisRangeError);
    [apply heliocentric_errs | discriminate].
Qed.

Lemma argmin_in_range (ds : list Q) :
  ds <> [] -> exists i, argmin ds = Ok i /\ (i < List.length ds)%nat.
Proof.
  destruct ds as [|x l]; [congruence|]. intros _.
  eexists. split; [reflexivity|].
  destruct (argmin_spec (x :: l) _ eq_refl) as (di & Hdi & _).
  apply nth_error_Some. congruence.
Qed.

(** X5.  The exceptions of a frame.  A frame index outside the dates gives
    an [IndexError] before anything is written.  Any other exception is a
    [KeyError] or a range error of the ephemeris, raised after
    [frame_count] was incremented.  A frame never raises [ValueError] or
    [ZeroDivisionError]: the distance vector handed to the minimum scan is
    never empty, every planet the ranks are looked up for is in the sorted
    list, and the divisions are guarded. *)
Theorem update_exceptions (frame : nat) (g : Globals) :
  (nth_error (dates g) frame = None ->
   update sqrt_au eph frame g = (Err IndexError, g)) /\
  (forall e g',
     update sqrt_au eph frame g = (Err e, g') ->
     (e = IndexError /\ nth_error (dates g) frame = None /\ g' = g) \/
     ((e = KeyError \/ e = EphemerisRangeError) /\
      nth_error (dates g) frame <> None /\
      frame_count g' = frame_count g + 1)).
Proof.
  split.
  { intros H. unfold update, bind, get, lift, index. rewrite H. reflexivity. }
  intros e g' H. unfold update in H.
  apply bind_Err in H.
  destruct H as [H|(g0 & g1 & Hget & H)]; [inversion H|].
  inversion Hget; subst g0 g1; clear Hget.
  apply bind_Err in H. destruct H as [H|(date & g1 & Hdate & H)].
  { left. unfold lift, index in H.
    destruct (nth_error (dates g) frame); inversion H. auto. }
  apply lift_Ok in Hdate. destruct Hdate as [Hdate ->].
  apply index_Ok in Hdate. right.
  assert (Hsome : nth_error (dates g) frame <> None) by congruence.
  apply bind_Err in H. destruct H as [H|([] & g1 & Hmod & H)]; [inversion H|].
  inversion Hmod; subst g1; clear Hmod.
  apply bind_Err in H. destruct H as [H|([[earth pps] ds] & g1 & Hgeo & H)].
  { inversion H; subst. split; [|auto].
    eapply frame_geometry_errs; eauto. }
  apply lift_Ok in Hgeo. destruct Hgeo as [Hgeo ->].
  destruct (frame_geometry_length _ _ _ _ _ _ Hgeo) as [Hlen _].
  destruct (argmin_in_range ds) as (i & Hi & Hlt).
  { intros ->. discriminate Hlen. }
  apply bind_Err in H. destruct H as [H|(i' & g1 & Hmin & H)].
  { inversion H. congruence. }
  apply lift_Ok in Hmin. destruct Hmin as [Hmin ->].
  rewrite Hi in Hmin. inversion Hmin; subst i'.
  apply bind_Err in H. destruct H as [H|(closest & g1 & Hcl & H)].
  { exfalso. unfold lift, index in H.
    destruct (nth_error table_planets i) eqn:E; [inversion H|].
    apply nth_error_None in E. lia. }
  apply lift_Ok in Hcl. destruct Hcl as [_ ->].
  apply bind_Err in H. destruct H as [H|([] & g1 & Hsum & H)].
  { apply for_each_add_distance_any in H. destruct H as [Hfc He].
    split; [left; apply He; reflexivity|]. split; [exact Hsome|].
    rewrite Hfc. reflexivity. }
  apply for_each_add_distance_any in Hsum. destruct Hsum as [Hfc1 _].
  assert (Hcount : forall r g2,
             (if truthy closest then count_closest closest else ret tt) g1
             = (r, g2) ->
             frame_count g2 = frame_count g1 /\
             (forall e, r = Err e -> e = KeyError)).
  { intros r g2. destruct (truthy closest).
    - apply count_closest_any.
    - intros Hr. inversion Hr. split; [reflexivity | discriminate]. }
  apply bind_Err in H. destruct H as [H|([] & g2 & Hcnt & H)].
  { apply Hcount in H. destruct H as [Hfc2 He].
    split; [left; apply He; reflexivity|]. split; [exact Hsome|].
    rewrite Hfc2, Hfc1. reflexivity. }
  apply Hcount in Hcnt. destruct Hcnt as [Hfc2 _].
  apply bind_Err in H.
  destruct H as [H|(g3 & g4 & Hget & H)]; [inversion H|].
  inversion Hget; subst g3 g4; clear Hget.
  apply bind_Err in H. destruct H as [H|(table & g3 & _ & H)].
  { inversion H; subst. split; [left; eapply update_table_errs; eauto|].
    split; [exact Hsome|]. rewrite Hfc2, Hfc1. reflexivity. }
  inversion H.
Qed.

End FrameErrors.

(** Frame 365 of a 365-day year. *)
Lemma update_exceptions_witness :
  nth_error (dates one_year_started) 365 = None /\
  update Qsqrt (toy_eph 0 1) 365 one_year_started
    = (Err IndexError, one_year_started).
Proof.
  assert (H : nth_error (dates one_year_started) 365 = None) by reflexivity.
  split; [exact H|].
  apply (update_exceptions Qsqrt (toy_eph 0 1) 365 one_year_started).
  exact H.
Defined.

(** ** The table of a frame *)

Lemma table_lines_numbers (g : Globals) (cd : dict Q) (order : dict Z)
    (pct : dict Q) :
  forall ips lines,
    res_mapM (table_line g cd order pct) ips = Ok lines ->
    map (fun r => (row_line r, row_planet r)) (List.concat lines) =
    map (fun ip => (S (fst ip), snd ip))
        (filter (fun ip => dict_mem (snd ip) cd) ips).
Proof.
  induction ips as [|[i p] ips IH]; simpl; intros lines H.
  - inversion H. reflexivity.
  - apply res_bind_Ok in H. destruct H as [line [Hline H]].
    apply res_bind_Ok in H. destruct H as [lines' [Hlines H]].
    inversion H; subst; clear H. simpl. rewrite map_app, (IH _ Hlines).
    destruct (dict_mem p cd).
    + apply res_bind_Ok in Hline. destruct Hline as [avg [_ Hline]].
      apply res_bind_Ok in Hline. destruct Hline as [cur [_ Hline]].
      apply res_bind_Ok in Hline. destruct Hline as [rank [_ Hline]].
      apply res_bind_Ok in Hline. destruct Hline as [pc [_ Hline]].
      inversion Hline. reflexivity.
    + inversion Hline. reflexivity.
Qed.

Lemma dict_mem_key {V : Type} (k : string) (d : dict V) :
  In k (dict_keys d) -> dict_mem k d = true.
Proof.
  intros H. unfold dict_mem.
  destruct (dict_get k d) eqn:E; [reflexivity|].
  apply dict_get_None in E. contradiction.
Qed.

Lemma dict_from_lookups {V : Type} :
  forall (d l : dict V),
    NoDup (dict_keys d) ->
    dict_keys l = dict_keys d ->
    (forall kv, In kv l -> dict_get (fst kv) d = Some (snd kv)) ->
    l = d.
Proof.
  induction d as [|[k v] d IH]; intros [|[k' v'] l] Hnd Hk Hl;
    simpl in Hk; try discriminate; [reflexivity|].
  inversion Hk; subst k'. inversion Hnd as [|? ? Hfresh Hnd']; subst.
  pose proof (Hl (k, v') (or_introl eq_refl)) as Hv. simpl in Hv.
  rewrite String.eqb_refl in Hv. inversion Hv; subst v'.
  f_equal. apply IH; auto.
  intros [k2 v2] Hin. pose proof (Hl _ (or_intror Hin)) as H2. simpl in H2.
  destruct (String.eqb k2 k) eqn:E; [|exact H2].
  apply String.eqb_eq in E. subst k2. exfalso. apply Hfresh.
  rewrite <- H1. change k with (fst (k, v2)). apply in_map. exact Hin.
Qed.

Lemma update_table_lines (g : Globals) (vs : list Q) (table : list Row) :
  List.length vs = List.length table_planets ->
  update_table g (combine table_planets vs) = Ok table ->
  map (fun r => (row_line r, row_planet r)) table =
    combine (seq 1 (List.length table_planets)) table_planets /\
  map (fun r => (row_planet r, row_current r)) table =
    combine table_planets vs.
Proof.
  intros Hlen Htab.
  assert (Hkeys : dict_keys (combine table_planets vs) = table_planets)
    by (apply dict_keys_combine; auto).
  assert (Hnum : map (fun r => (row_line r, row_planet r)) table =
                 combine (seq 1 (List.length table_planets)) table_planets).
  { pose proof Htab as H. unfold update_table in H.
    apply res_bind_Ok in H. destruct H as [order [_ H]].
    apply res_bind_Ok in H. destruct H as [pct [_ H]].
    apply res_bind_Ok in H. destruct H as [lines [Hlines H]].
    inversion H; subst. rewrite (table_lines_numbers _ _ _ _ _ _ Hlines).
    rewrite filter_all.
    - reflexivity.
    - intros [i p] Hip. apply in_combine_r in Hip. cbn [snd].
      apply dict_mem_key. rewrite Hkeys. exact Hip. }
  split; [exact Hnum|].
  apply dict_from_lookups.
  - rewrite Hkeys. apply nodup_table_planets.
  - rewrite Hkeys. unfold dict_keys. rewrite map_map. cbn [fst].
    transitivity (map snd (map (fun r => (row_line r, row_planet r)) table)).
    + rewrite map_map. reflexivity.
    + rewrite Hnum. reflexivity.
  - intros kv Hkv. apply in_map_iff in Hkv. destruct Hkv as [row [<- Hrow]].
    cbn [fst snd].
    destruct (update_table_rows _ _ _ Htab row Hrow) as (_ & Hcur & _).
    exact Hcur.
Qed.

(** ** Ranks *)

Lemma position_in_cons_other (x y : string) (l : list string) :
  x <> y -> In x l -> position_in (y :: l) x = S (position_in l x).
Proof.
  intros Hne Hin. unfold position_in. simpl.
  apply String.eqb_neq in Hne. rewrite Hne.
  destruct (list_index_In _ _ Hin) as [i ->]. reflexivity.
Qed.

(** In a list without repetition each item sits at its own position. *)
Lemma position_in_NoDup :
  forall l, NoDup l -> map (position_in l) l = seq 0 (List.length l).
Proof.
  induction l as [|y l IH]; intros Hnd; [reflexivity|].
  inversion Hnd as [|? ? Hfresh Hnd']; subst.
  cbn [map List.length seq]. f_equal.
  - unfold position_in. simpl. rewrite String.eqb_refl. reflexivity.
  - rewrite <- seq_shift, <- (IH Hnd'), map_map.
    apply map_ext_in. intros x Hx. apply position_in_cons_other; [|exact Hx].
    intros ->. contradiction.
Qed.

Lemma sorted_planets_perm (vs : list Q) :
  List.length vs = List.length table_planets ->
  Permutation table_planets (sorted_planets (combine table_planets vs)).
Proof.
  intros Hlen. unfold sorted_planets. rewrite current_distances_not_earth.
  rewrite <- (dict_keys_combine table_planets vs) at 1 by auto.
  unfold dict_keys. apply Permutation_map. symmetry. apply sorted_by_perm.
Qed.

(** X7.  The ranks of a frame are the numbers 1 to 7, each given to one
    Body: the rank column of the table is a rearrangement of 1, ..., 7, so
    no rank is shared, even between Bodies at the same rounded distance,
    and none is skipped. *)
Theorem ranks_are_a_permutation
    (sqrt_au : Q -> Q) (eph : Ephemeris) (frame : nat) (g g' : Globals)
    (out : FrameOutput) :
  update sqrt_au eph frame g = (Ok out, g') ->
  Permutation (map row_rank (fo_table out)) [1; 2; 3; 4; 5; 6; 7].
Proof.
  intros H. apply update_Ok in H.
  destruct H as (date & earth & pps & ds & i & closest & sums & old & table
                 & _ & Hgeo & _ & _ & _ & _ & _ & _ & Htab & ->).
  cbn [fo_table].
  destruct (frame_geometry_length _ _ _ _ _ _ Hgeo) as [Hlen _].
  assert (Hlen' : List.length (map round2 ds) = List.length table_planets)
    by (rewrite length_map; exact Hlen).
  set (cd := combine table_planets (map round2 ds)) in *.
  set (sp := sorted_planets cd).
  destruct (update_table_lines _ _ _ Hlen' Htab) as [Hnum _].
  assert (Hpl : map row_planet table = table_planets).
  { transitivity (map snd (map (fun r => (row_line r, row_planet r)) table)).
    - rewrite map_map. reflexivity.
    - rewrite Hnum. reflexivity. }
  assert (Hrank : map row_rank table =
                  map (fun p => Z.of_nat (position_in sp p) + 1)
                      (map row_planet table)).
  { rewrite map_map. apply map_ext_in. intros row Hrow.
    destruct (update_table_rows _ _ _ Htab row Hrow)
      as (_ & _ & _ & _ & k & Hk & ->).
    unfold position_in. fold cd in Hk. fold sp in Hk. rewrite Hk.
    reflexivity. }
  rewrite Hrank, Hpl.
  pose proof (sorted_planets_perm _ Hlen') as Hperm. fold cd sp in Hperm.
  rewrite (Permutation_map (fun p => Z.of_nat (position_in sp p) + 1) Hperm).
  rewrite <- (map_map (position_in sp) (fun k => Z.of_nat k + 1)).
  rewrite position_in_NoDup.
  - rewrite <- (Permutation_length Hperm). reflexivity.
  - eapply Permutation_NoDup; [exact Hperm | apply nodup_table_planets].
Qed.

(** The first frame on the small ephemeris, where Mercury and Venus are
    both shown at 1.00: ranks 1 and 2. *)
Lemma ranks_are_a_permutation_witness :
  exists out g',
    update Qsqrt (toy_eph 0 1) 0 one_year_started = (Ok out, g') /\
    Permutation (map row_rank (fo_table out)) [1; 2; 3; 4; 5; 6; 7].
Proof.
  destruct (update Qsqrt (toy_eph 0 1) 0 one_year_started)
    as [[out|e] g'] eqn:E.
  - exists out, g'. split; [reflexivity|].
    exact (ranks_are_a_permutation _ _ _ _ _ _ E).
  - vm_compute in E. discriminate E.
Defined.

(** X6.  A frame that returns rewrites every line of the table: line
    [k] (1 to 7) for the [k]-th non-Earth planet of the planet list, and
    the current distances of the lines, read top to bottom, are the
    frame's current distances. *)
Theorem frame_rewrites_every_line
    (sqrt_au : Q -> Q) (eph : Ephemeris) (frame : nat) (g g' : Globals)
    (out : FrameOutput) :
  update sqrt_au eph frame g = (Ok out, g') ->
  map (fun r => (row_line r, row_planet r)) (fo_table out) =
    [ (1%nat, "Mercury"); (2%nat, "Venus"); (3%nat, "Mars");
      (4%nat, "Jupiter"); (5%nat, "Saturn"); (6%nat, "Uranus");
      (7%nat, "Neptune") ] /\
  map (fun r => (row_planet r, row_current r)) (fo_table out) =
    fo_current_distances out.
Proof.
  intros H. apply update_Ok in H.
  destruct H as (date & earth & pps & ds & i & closest & sums & old & table
                 & _ & Hgeo & _ & _ & _ & _ & _ & _ & Htab & ->).
  cbn [fo_table fo_current_distances].
  destruct (frame_geometry_length _ _ _ _ _ _ Hgeo) as [Hlen _].
  assert (Hlen' : List.length (map round2 ds) = List.length table_planets)
    by (rewrite length_map; exact Hlen).
  exact (update_table_lines _ _ _ Hlen' Htab).
Qed.

Lemma frame_rewrites_every_line_witness :
  exists out g',
    update Qsqrt (toy_eph 0 1) 0 one_year_started = (Ok out, g') /\
    map row_line (fo_table out) = [1; 2; 3; 4; 5; 6; 7]%nat.
Proof.
  destruct (update Qsqrt (toy_eph 0 1) 0 one_year_started)
    as [[out|e] g'] eqn:E.
  - exists out, g'. split; [reflexivity|].
    destruct (frame_rewrites_every_line _ _ _ _ _ _ E) as [Hnum _].
    transitivity (map fst (map (fun r => (row_line r, row_planet r))
                             (fo_table out))).
    + rewrite map_map. reflexivity.
    + rewrite Hnum. reflexivity.
  - vm_compute in E. discriminate E.
Defined.

(** ** Rounding *)

Lemma rint_mono (a b : Q) : (a <= b)%Q -> rint a <= rint b.
Proof.
  intros Hab. unfold rint.
  pose proof (Qfloor_resp_le _ _ Hab) as Hf.
  pose proof (Qfloor_le a) as Hla. pose proof (Qfloor_le b) as Hlb.
  pose proof (Qlt_floor a) as Hha. pose proof (Qlt_floor b) as Hhb.
  rewrite inject_Z_plus in Hha, Hhb. change (inject_Z 1) with 1%Q in Hha, Hhb.
  destruct (Z.eq_dec (Qfloor a) (Qfloor b)) as [Heq|Hne].
  - rewrite <- Heq in *.
    destruct (Qcompare_spec (a - inject_Z (Qfloor a)) (1 # 2)) as [Ea|Ea|Ea],
             (Qcompare_spec (b - inject_Z (Qfloor a)) (1 # 2)) as [Eb|Eb|Eb];
      destruct (Z.even (Qfloor a)); try lia; exfalso; lra.
  - destruct (Qcompare_spec (a - inject_Z (Qfloor a)) (1 # 2)) as [Ea|Ea|Ea],
             (Qcompare_spec (b - inject_Z (Qfloor b)) (1 # 2)) as [Eb|Eb|Eb];
      destruct (Z.even (Qfloor a)), (Z.even (Qfloor b)); lia.
Qed.

(** Rounding to two decimals keeps the order. *)
Lemma round2_mono (a b : Q) : (a <= b)%Q -> (round2 a <= round2 b)%Q.
Proof.
  intros Hab. unfold round2, Qle. cbn [Qnum Qden].
  assert (H : rint (a * 100) <= rint (b * 100)) by (apply rint_mono; lra).
  lia.
Qed.

(** ** The displayed distance of the closest Body *)

Lemma combine_nth {A B : Type} :
  forall (ks : list A) (vs : list B) i k v,
    nth_error ks i = Some k -> nth_error vs i = Some v ->
    In (k, v) (combine ks vs).
Proof.
  induction ks as [|k0 ks IH]; intros [|v0 vs] [|i] k v Hk Hv;
    simpl in *; try discriminate.
  - inversion Hk. inversion Hv. auto.
  - right. eauto.
Qed.

Lemma combine_map_values {A B C : Type} (f : B -> C) :
  forall (ks : list A) (vs : list B) k d,
    In (k, d) (combine ks (map f vs)) -> exists u, In u vs /\ d = f u.
Proof.
  intros ks vs k d H. apply in_combine_r in H. apply in_map_iff in H.
  destruct H as [u [<- Hu]]. eauto.
Qed.

(** X8.  Rounding never puts another Body below the closest one: in a frame
    that returns, the current distance reported for the Body counted as
    closest is less than or equal to the current distance reported for
    every Body (rounding to the nearest hundredth keeps the order of the
    distances, so the least distance has the least rounded value, possibly
    shared). *)
Theorem closest_has_least_reported_distance
    (sqrt_au : Q -> Q) (eph : Ephemeris) (frame : nat) (g g' : Globals)
    (out : FrameOutput) :
  update sqrt_au eph frame g = (Ok out, g') ->
  exists c,
    dict_get (fo_closest out) (fo_current_distances out) = Some c /\
    (forall p d, In (p, d) (fo_current_distances out) -> (c <= d)%Q).
Proof.
  intros H. apply update_Ok in H.
  destruct H as (date & earth & pps & ds & i & closest & sums & old & table
                 & Hdate & Hgeo & Hmin & Hcl & _ & _ & _ & _ & _ & ->).
  cbn [fo_closest fo_current_distances].
  destruct (frame_geometry_length _ _ _ _ _ _ Hgeo) as [Hlen _].
  apply argmin_spec in Hmin. destruct Hmin as (di & Hdi & Hle & _).
  exists (round2 di). split.
  - apply dict_get_NoDup.
    + rewrite dict_keys_combine by (rewrite length_map; auto).
      apply nodup_table_planets.
    + eapply combine_nth; [exact Hcl|].
      rewrite nth_error_map, Hdi. reflexivity.
  - intros p d Hin. apply combine_map_values in Hin.
    destruct Hin as [u [Hu ->]]. apply round2_mono.
    apply In_nth_error in Hu. destruct Hu as [j Hj]. eauto.
Qed.

(** The first frame on the small ephemeris: Venus, counted closest at
    1.001, is shown at 1.00, the least value shown. *)
Lemma closest_has_least_reported_distance_witness :
  exists out g' c,
    update Qsqrt (toy_eph 0 1) 0 one_year_started = (Ok out, g') /\
    dict_get (fo_closest out) (fo_current_distances out) = Some c /\
    (forall p d, In (p, d) (fo_current_distances out) -> (c <= d)%Q).
Proof.
  destruct (update Qsqrt (toy_eph 0 1) 0 one_year_started)
    as [[out|e] g'] eqn:E.
  - destruct (closest_has_least_reported_distance _ _ _ _ _ _ E)
      as (c & Hc & Hle).
    exists out, g', c. auto.
  - vm_compute in E. discriminate E.
Defined.

(** ** Counts a run can reach *)

Lemma counts_sane_zero : counts_sane (dict_const planets 0).
Proof.
  repeat constructor; cbn; try lia; reflexivity.
Qed.

Lemma Forall_dict_set {V : Type} (P : string * V -> Prop) (k : string) (v : V) :
  P (k, v) -> forall d, Forall P d -> Forall P (dict_set k v d).
Proof.
  intros Hkv. induction d as [|[k' v'] d IH]; simpl; intros H.
  - constructor; [exact Hkv | constructor].
  - inversion H; subst.
    destruct (String.eqb k k'); constructor; auto.
Qed.

Lemma counts_sane_entry (cc : dict Z) (k : string) (v : Z) :
  counts_sane cc -> In (k, v) cc ->
  0 <= v <= sum_values cc /\ (k = "Earth" -> v = 0).
Proof.
  unfold counts_sane. induction cc as [|[k' v'] cc IH]; intros Hs Hin;
    [contradiction|].
  inversion Hs as [|? ? [Hv' He'] Hs']; subst. cbn [fst snd] in *.
  rewrite sum_values_cons.
  assert (Hsum : 0 <= sum_values cc).
  { clear -Hs'. induction Hs' as [|[k v] cc [Hv _] _ IHs].
    - reflexivity.
    - rewrite sum_values_cons. cbn [snd] in Hv. lia. }
  destruct Hin as [Heq|Hin].
  - inversion Heq; subst. split; [lia | exact He'].
  - destruct (IH Hs' Hin) as [Hb He]. split; [lia | exact He].
Qed.

Lemma filtered_counts_sum (cc : dict Z) :
  counts_sane cc -> sum_values (filtered_counts cc) = sum_values cc.
Proof.
  unfold counts_sane, filtered_counts.
  induction 1 as [|[k v] cc [Hv He] _ IH]; [reflexivity|].
  cbn [filter fst snd] in *. rewrite sum_values_cons.
  destruct (0 <? v) eqn:Epos; cbn [andb].
  - unfold not_earth. destruct (String.eqb k "Earth") eqn:Ek; cbn [negb].
    + apply String.eqb_eq in Ek. apply Z.ltb_lt in Epos.
      pose proof (He Ek). lia.
    + rewrite sum_values_cons. f_equal. exact IH.
  - apply Z.ltb_ge in Epos. etransitivity; [exact IH|]. lia.
Qed.

Section ReachableCounts.

Variable sqrt_au : Q -> Q.
Variable eph : Ephemeris.

Lemma update_counts_sane (frame : nat) (g g' : Globals) (out : FrameOutput) :
  update sqrt_au eph frame g = (Ok out, g') ->
  counts_sane (closest_counts g) -> counts_sane (closest_counts g').
Proof.
  intros H Hs. apply update_counts in H.
  destruct H as (_ & _ & Hin & old & Hold & ->).
  apply Forall_dict_set; [|exact Hs]. cbn [fst snd].
  destruct (counts_sane_entry _ _ _ Hs (dict_get_In _ _ _ Hold)) as [Hb _].
  split; [lia|]. intros He. rewrite He in Hin.
  apply table_planets_not_earth in Hin. discriminate Hin.
Qed.

Lemma run_frames_counts_sane :
  forall (frames : list nat) (g g' : Globals) (outs : list FrameOutput),
    run_frames sqrt_au eph frames g = (Ok outs, g') ->
    counts_sane (closest_counts g) ->
    counts_sane (closest_counts g') /\
    dict_keys (closest_counts g') = dict_keys (closest_counts g).
Proof.
  induction frames as [|f frames IH]; intros g g' outs H Hs.
  - inversion H; subst. auto.
  - simpl in H.
    apply bind_Ok in H. destruct H as [out [g1 [Hup H]]].
    apply bind_Ok in H. destruct H as [outs' [g2 [Hrun H]]].
    inversion H; subst; clear H.
    pose proof (update_counts_sane _ _ _ _ Hup Hs) as Hs1.
    destruct (IH _ _ _ Hrun Hs1) as [Hs2 Hk].
    split; [exact Hs2|]. rewrite Hk.
    apply update_keeps in Hup. unfold frame_fixed in Hup.
    inversion Hup. reflexivity.
Qed.

End ReachableCounts.

Lemma reset_counts (g : Globals) :
  closest_counts (snd (reset g)) = dict_const planets 0 /\
  frame_count (snd (reset g)) = 0.
Proof. rewrite reset_state. auto. Qed.

(** X9.  The pie chart after a reset and frames that all return: its
    counts are those of the non-Earth Bodies that were closest at least
    once, each positive; they add up to the number of frames processed;
    and after at least one frame there is a slice to draw.  The Earth is
    never counted.  The pie a frame hands out is the one of the counts as
    that frame leaves them. *)
Theorem pie_counts_every_frame
    (sqrt_au : Q -> Q) (eph : Ephemeris) (g g' : Globals)
    (frames : list nat) (outs : list FrameOutput) :
  run_frames sqrt_au eph frames (snd (reset g)) = (Ok outs, g') ->
  sum_values (filtered_counts (closest_counts g'))
    = Z.of_nat (List.length frames) /\
  (frames <> [] -> filtered_counts (closest_counts g') <> []) /\
  (forall p v, In (p, v) (filtered_counts (closest_counts g')) ->
     0 < v /\ In p table_planets /\ dict_get p (closest_counts g') = Some v) /\
  dict_get "Earth" (closest_counts g') = Some 0 /\
  (forall f g1 out g2,
     update sqrt_au eph f g1 = (Ok out, g2) ->
     fo_pie out = filtered_counts (closest_counts g2)).
Proof.
  intros H.
  destruct (reset_counts g) as [Hcc Hfc].
  destruct (run_frames_counts _ _ _ _ _ _ H) as (_ & Hsum & _ & _).
  destruct (run_frames_counts_sane _ _ _ _ _ _ H) as [Hs Hk].
  { rewrite Hcc. apply counts_sane_zero. }
  rewrite Hcc in Hsum, Hk.
  change (sum_values (dict_const planets 0)) with 0 in Hsum.
  change (dict_keys (dict_const planets 0)) with planets in Hk.
  assert (Hnd : NoDup (dict_keys (closest_counts g'))).
  { rewrite Hk. repeat constructor; simpl; intuition discriminate. }
  assert (Hfs := filtered_counts_sum _ Hs).
  split; [lia|]. split; [|split; [|split]].
  - intros Hne Hnil. rewrite Hnil in Hfs.
    change (sum_values []) with 0 in Hfs.
    destruct frames; [congruence|]. cbn [List.length] in Hsum. lia.
  - intros p v Hin. unfold filtered_counts in Hin.
    apply filter_In in Hin. destruct Hin as [Hin Hc].
    apply andb_true_iff in Hc. destruct Hc as [Hpos Hne]. cbn [fst snd] in *.
    apply Z.ltb_lt in Hpos. split; [exact Hpos|].
    split; [|apply dict_get_NoDup; assumption].
    assert (Hp : In p planets).
    { rewrite <- Hk. change p with (fst (p, v)). apply in_map. exact Hin. }
    unfold table_planets. apply filter_In. auto.
  - destruct (dict_get "Earth" (closest_counts g')) as [v|] eqn:E.
    + destruct (counts_sane_entry _ _ _ Hs (dict_get_In _ _ _ E)) as [_ He].
      rewrite He; reflexivity.
    + apply dict_get_None in E. exfalso. apply E. rewrite Hk.
      simpl. auto.
  - intros f g1 out g2 Hup. apply update_Ok in Hup.
    destruct Hup as (date & earth & pps & ds & i & closest & sums & old
                     & table & _ & _ & _ & _ & _ & _ & _ & -> & _ & ->).
    reflexivity.
Qed.

(** Three frames on the small ephemeris: one slice, Venus with 3. *)
Lemma pie_counts_every_frame_witness :
  exists outs g',
    run_frames Qsqrt (toy_eph 0 1) [0; 1; 2]%nat
      (snd (reset one_year_started)) = (Ok outs, g') /\
    sum_values (filtered_counts (closest_counts g')) = 3 /\
    filtered_counts (closest_counts g') <> [].
Proof.
  destruct (run_frames Qsqrt (toy_eph 0 1) [0; 1; 2]%nat
              (snd (reset one_year_started))) as [[outs|e] g'] eqn:E.
  - exists outs, g'. split; [reflexivity|].
    destruct (pie_counts_every_frame _ _ _ _ _ _ E) as (Hsum & Hne & _).
    split; [exact Hsum|]. apply Hne. discriminate.
  - vm_compute in E. discriminate E.
Defined.

(** ** Percentages *)

Lemma percent_bounds (c n : Z) :
  0 <= c <= n -> 0 < n ->
  (0 <= round2 (inject_Z c / inject_Z n * 100) <= 100)%Q.
Proof.
  intros Hc Hn.
  assert (Hn' : (0 < inject_Z n)%Q) by (unfold Qlt; cbn; lia).
  assert (Hlo : (0 <= inject_Z c / inject_Z n)%Q).
  { apply Qle_shift_div_l; [exact Hn'|]. rewrite Qmult_0_l.
    unfold Qle; cbn; lia. }
  assert (Hhi : (inject_Z c / inject_Z n <= 1)%Q).
  { apply Qle_shift_div_r; [exact Hn'|]. rewrite Qmult_1_l.
    unfold Qle; cbn; lia. }
  split.
  - apply Qle_trans with (round2 0); [vm_compute; discriminate|].
    apply round2_mono. lra.
  - apply Qle_trans with (round2 100); [|vm_compute; discriminate].
    apply round2_mono. lra.
Qed.

Section Percentages.

Variable sqrt_au : Q -> Q.
Variable eph : Ephemeris.

Lemma update_percent_range (frame : nat) (g g' : Globals) (out : FrameOutput) :
  update sqrt_au eph frame g = (Ok out, g') ->
  counts_sane (closest_counts g) ->
  sum_values (closest_counts g) = frame_count g ->
  counts_sane (closest_counts g') /\
  sum_values (closest_counts g') = frame_count g' /\
  forall row, In row (fo_table out) ->
    exists c,
      dict_get (row_planet row) (closest_counts g') = Some c /\
      0 <= c <= frame_count g' /\
      (0 <= row_percent row <= 100)%Q.
Proof.
  intros H Hs Hsum.
  pose proof (update_counts_sane _ _ _ _ _ _ H Hs) as Hs'.
  destruct (update_counts _ _ _ _ _ _ H) as (Hfc & _ & _ & old & Hold & Hcc).
  assert (Hsum' : sum_values (closest_counts g') = frame_count g').
  { rewrite Hcc, (sum_values_set _ old) by exact Hold. lia. }
  assert (Hpos : 0 < frame_count g').
  { destruct (counts_sane_entry _ _ _ Hs (dict_get_In _ _ _ Hold)) as [Hb _].
    lia. }
  split; [exact Hs'|]. split; [exact Hsum'|].
  intros row Hrow. apply update_Ok in H.
  destruct H as (date & earth & pps & ds & i & closest & sums & old'
                 & table & _ & _ & _ & _ & _ & _ & _ & Hg' & Htab & ->).
  cbn [fo_table] in Hrow.
  destruct (update_table_rows _ _ _ Htab row Hrow) as (_ & _ & _ & Hpct & _).
  unfold percentage_of in Hpct.
  apply Z.ltb_lt in Hpos as Hpos'. rewrite Hpos' in Hpct.
  apply res_bind_Ok in Hpct. destruct Hpct as [c [Hc Hpct]].
  apply dict_lookup_Ok in Hc.
  rewrite py_div_nonzero in Hpct by lia. cbn [res_bind] in Hpct.
  inversion Hpct as [Hval].
  destruct (counts_sane_entry _ _ _ Hs' (dict_get_In _ _ _ Hc)) as [Hb _].
  rewrite Hsum' in Hb.
  exists c. rewrite <- ?Hval.
  repeat split; try lia; try exact Hc; apply percent_bounds; assumption.
Qed.

Lemma run_frames_percent_range :
  forall (frames : list nat) (g g' : Globals) (outs : list FrameOutput),
    run_frames sqrt_au eph frames g = (Ok outs, g') ->
    counts_sane (closest_counts g) ->
    sum_values (closest_counts g) = frame_count g ->
    forall out row, In out outs -> In row (fo_table out) ->
      (0 <= row_percent row <= 100)%Q.
Proof.
  induction frames as [|f frames IH]; intros g g' outs H Hs Hsum out row Hout.
  - inversion H; subst. contradiction.
  - simpl in H.
    apply bind_Ok in H. destruct H as [out1 [g1 [Hup H]]].
    apply bind_Ok in H. destruct H as [outs' [g2 [Hrun H]]].
    inversion H; subst; clear H.
    destruct (update_percent_range _ _ _ _ Hup Hs Hsum) as (Hs1 & Hsum1 & Hr).
    destruct Hout as [<-|Hout].
    + intros Hrow. destruct (Hr row Hrow) as (c & _ & _ & Hb). exact Hb.
    + apply (IH _ _ _ Hrun Hs1 Hsum1 out row Hout).
Qed.

End Percentages.

(** X10.  After a reset, every percentage a frame writes into the table
    lies between 0 and 100: the share it rounds is that of a count that is
    never negative and never above [frame_count]. *)
Theorem percentages_in_range
    (sqrt_au : Q -> Q) (eph : Ephemeris) (g g' : Globals)
    (frames : list nat) (outs : list FrameOutput) :
  run_frames sqrt_au eph frames (snd (reset g)) = (Ok outs, g') ->
  (forall out row, In out outs -> In row (fo_table out) ->
     (0 <= row_percent row <= 100)%Q) /\
  (forall p c, dict_get p (closest_counts g') = Some c ->
     0 <= c <= frame_count g').
Proof.
  intros H.
  destruct (reset_counts g) as [Hcc Hfc].
  assert (Hs : counts_sane (closest_counts (snd (reset g))))
    by (rewrite Hcc; apply counts_sane_zero).
  assert (Hsum : sum_values (closest_counts (snd (reset g)))
                 = frame_count (snd (reset g)))
    by (rewrite Hcc, Hfc; reflexivity).
  split.
  - apply (run_frames_percent_range _ _ _ _ _ _ H Hs Hsum).
  - intros p c Hc.
    destruct (run_frames_counts_sane _ _ _ _ _ _ H Hs) as [Hs' _].
    destruct (run_frames_counts _ _ _ _ _ _ H) as (Hfc' & Hsum' & _).
    destruct (counts_sane_entry _ _ _ Hs' (dict_get_In _ _ _ Hc)) as [Hb _].
    rewrite Hsum in Hsum'. lia.
Qed.

Lemma percentages_in_range_witness :
  exists outs g',
    run_frames Qsqrt (toy_eph 0 1) [0; 1; 2]%nat
      (snd (reset one_year_started)) = (Ok outs, g') /\
    forall out row, In out outs -> In row (fo_table out) ->
      (0 <= row_percent row <= 100)%Q.
Proof.
  destruct (run_frames Qsqrt (toy_eph 0 1) [0; 1; 2]%nat
              (snd (reset one_year_started))) as [[outs|e] g'] eqn:E.
  - exists outs, g'. split; [reflexivity|].
    apply (percentages_in_range _ _ _ _ _ _ E).
  - vm_compute in E. discriminate E.
Defined.

(** ** The title of a frame *)

Lemma start_simulation_settings (g : Globals) :
  start_year (snd (start_simulation g)) = start_year g /\
  step_days (snd (start_simulation g)) = step_days g.
Proof.
  unfold start_simulation, bind. rewrite reset_state.
  unfold update_dates, bind, get, lift, modify.
  cbn [start_year end_year step_days set_distance_sums set_closest_counts
       set_frame_count].
  destruct (py_range _ _ _); cbn; auto.
Qed.

Lemma frame_fixed_fields (g g' : Globals) :
  frame_fixed g' = frame_fixed g ->
  step_days g' = step_days g /\ dates g' = dates g.
Proof.
  unfold frame_fixed. intros H. inversion H. auto.
Qed.

Lemma run_frames_titles (sqrt_au : Q -> Q) (eph : Ephemeris) :
  forall (frames : list nat) (g g' : Globals) (outs : list FrameOutput),
    run_frames sqrt_au eph frames g = (Ok outs, g') ->
    Forall2 (fun f out =>
               nth_error (dates g) f = Some (fo_date out) /\
               fo_elapsed_days out = Z.of_nat f * step_days g)
            frames outs.
Proof.
  induction frames as [|f frames IH]; intros g g' outs H.
  - inversion H. constructor.
  - simpl in H.
    apply bind_Ok in H. destruct H as [out [g1 [Hup H]]].
    apply bind_Ok in H. destruct H as [outs' [g2 [Hrun H]]].
    inversion H; subst; clear H.
    destruct (frame_fixed_fields _ _ (update_keeps _ _ _ _ _ _ Hup))
      as [Hstep Hdates].
    apply IH in Hrun. rewrite Hstep, Hdates in Hrun.
    constructor; [|exact Hrun].
    apply update_Ok in Hup.
    destruct Hup as (date & earth & pps & ds & i & closest & sums & old
                     & table & Hdate & _ & _ & _ & _ & _ & _ & _ & _ & ->).
    cbn [fo_date fo_elapsed_days]. cbn [step_days set_closest_counts
      set_distance_sums set_frame_count]. auto.
Qed.

(** X11.  After a start with a usable step, the title of every frame
    processed agrees with its date: frame [f] shows the time point
    [f * step_days] days after 1 January of the start year, and that same
    number as the days elapsed, whatever frames were processed before. *)
Theorem title_days_match_date
    (sqrt_au : Q -> Q) (eph : Ephemeris) (g0 g' : Globals)
    (frames : list nat) (outs : list FrameOutput) :
  step_days g0 <> 0 ->
  run_frames sqrt_au eph frames (snd (start_simulation g0)) = (Ok outs, g') ->
  Forall2 (fun f out =>
             fo_date out =
               mkTimePoint (start_year g0) (Z.of_nat f * step_days g0) /\
             fo_elapsed_days out = tp_offset (fo_date out))
          frames outs.
Proof.
  intros Hstep H. apply run_frames_titles in H.
  destruct (start_simulation_settings g0) as [_ Hd]. rewrite Hd in H.
  rewrite (start_simulation_dates _ Hstep) in H.
  eapply Forall2_impl; [|exact H].
  intros f out [Hnth Hel]. cbv beta in *.
  assert (Hlt : (f < Z.to_nat
                        (range_len 0 ((end_year g0 - start_year g0) * 365)
                           (step_days g0)))%nat).
  { assert (Hs : nth_error
                   (map (mkTimePoint (start_year g0))
                      (map (fun i => 0 + Z.of_nat i * step_days g0)
                         (seq 0 (Z.to_nat
                                   (range_len 0
                                      ((end_year g0 - start_year g0) * 365)
                                      (step_days g0)))))) f <> None)
      by congruence.
    apply nth_error_Some in Hs. rewrite !length_map, length_seq in Hs.
    exact Hs. }
  rewrite map_map, nth_error_map_seq in Hnth by exact Hlt.
  injection Hnth as Hdate. rewrite <- Hdate. cbn [tp_offset].
  split; [f_equal; lia | lia].
Qed.

Lemma title_days_match_date_witness :
  exists outs g',
    run_frames Qsqrt (toy_eph 0 1) [2; 0; 7]%nat
      (snd (start_simulation one_year_globals)) = (Ok outs, g') /\
    map fo_elapsed_days outs = [2; 0; 7] /\
    map fo_date outs =
      [mkTimePoint 2000 2; mkTimePoint 2000 0; mkTimePoint 2000 7].
Proof.
  destruct (run_frames Qsqrt (toy_eph 0 1) [2; 0; 7]%nat
              (snd (start_simulation one_year_globals)))
    as [[outs|e] g'] eqn:E.
  - exists outs, g'. split; [reflexivity|].
    assert (Hstep : step_days one_year_globals <> 0) by discriminate.
    pose proof (title_days_match_date _ _ _ _ _ _ Hstep E) as H.
    inversion H as [|? o0 ? l0 [Hd0 He0] H0]; subst.
    inversion H0 as [|? o1 ? l1 [Hd1 He1] H1]; subst.
    inversion H1 as [|? o2 ? l2 [Hd2 He2] H2]; subst.
    inversion H2; subst. cbn [map].
    rewrite He0, He1, He2, Hd0, Hd1, Hd2. split; reflexivity.
  - vm_compute in E. discriminate E.
Defined.

(** ** The first frame *)

Lemma reset_count_entry (g : Globals) (p : string) (v : Z) :
  dict_get p (closest_counts (snd (reset g))) = Some v -> v = 0.
Proof.
  intros H. apply dict_get_In in H.
  pose proof (zero_counts) as Hz. unfold all_zero_Z in Hz.
  rewrite Forall_forall in Hz.
  destruct (reset_counts g) as [Hcc _]. rewrite Hcc in H.
  apply (Hz _ H).
Qed.

(** X12.  The first frame after a reset: in every line of the table the
    average distance equals the current distance, the Body counted closest
    stands at 100 percent and every other Body at 0 percent. *)
Theorem first_frame_table
    (sqrt_au : Q -> Q) (eph : Ephemeris) (frame : nat) (g g' : Globals)
    (out : FrameOutput) :
  update sqrt_au eph frame (snd (reset g)) = (Ok out, g') ->
  frame_count g' = 1 /\
  forall row, In row (fo_table out) ->
    (row_average row == row_current row)%Q /\
    (row_percent row ==
       if String.eqb (row_planet row) (fo_closest out) then 100 else 0)%Q.
Proof.
  intros H. apply update_Ok in H.
  destruct H as (date & earth & pps & ds & i & closest & sums & old & table
                 & _ & Hgeo & _ & Hcl & Hin & _ & Hold & Hg' & Htab & ->).
  destruct (reset_counts g) as [Hcc Hfc].
  apply reset_count_entry in Hold as Hold0. subst old.
  rewrite Hfc in Hg'. rewrite Hcc in Hg'.
  assert (Hfc' : frame_count g' = 1) by (rewrite Hg'; reflexivity).
  split; [exact Hfc'|].
  intros row Hrow. cbn [fo_table fo_closest] in *.
  destruct (update_table_rows _ _ _ Htab row Hrow)
    as (Hp & Hcur & Havg & Hpct & _).
  split.
  - destruct (Hin _ _ (dict_get_In _ _ _ Hcur)) as (s & Hs & Hs').
    rewrite (reset_sum_entry g _ Hp) in Hs. inversion Hs; subst s.
    unfold avg_distance, dict_lookup in Havg. rewrite Hfc' in Havg.
    cbn [Z.ltb Z.compare] in Havg.
    replace (distance_sums g') with sums in Havg by (rewrite Hg'; reflexivity).
    rewrite Hs' in Havg. cbn in Havg. inversion Havg.
    unfold Qdiv. change (/ inject_Z 1)%Q with 1%Q. ring.
  - unfold percentage_of, dict_lookup in Hpct. rewrite Hfc' in Hpct.
    cbn [Z.ltb Z.compare] in Hpct.
    replace (closest_counts g')
      with (dict_set closest (0 + 1) (dict_const planets 0)) in Hpct
      by (rewrite Hg'; reflexivity).
    destruct (String.eqb (row_planet row) closest) eqn:E.
    + apply String.eqb_eq in E. rewrite E, dict_get_set_same in Hpct.
      cbn in Hpct. inversion Hpct. reflexivity.
    + apply String.eqb_neq in E.
      rewrite dict_get_set_other in Hpct by exact E.
      destruct (dict_get (row_planet row) (dict_const planets 0))
        as [c|] eqn:Ec; [|discriminate Hpct].
      assert (c = 0).
      { apply (reset_count_entry g (row_planet row)). rewrite Hcc. exact Ec. }
      subst c. cbn in Hpct. inversion Hpct. reflexivity.
Qed.

Lemma first_frame_table_witness :
  exists out g',
    update Qsqrt (toy_eph 0 1) 0 (snd (reset one_year_started))
      = (Ok out, g') /\
    frame_count g' = 1 /\
    fo_closest out = "Venus" /\
    forall row, In row (fo_table out) ->
      (row_average row == row_current row)%Q.
Proof.
  destruct (update Qsqrt (toy_eph 0 1) 0 (snd (reset one_year_started)))
    as [[out|e] g'] eqn:E.
  - exists out, g'. split; [reflexivity|].
    destruct (first_frame_table _ _ _ _ _ _ E) as [Hfc Hrows].
    split; [exact Hfc|]. split.
    + change (fo_closest out) with
        (fo_closest (match (Ok out : res FrameOutput) with
                     | Ok o => o | Err _ => out end)).
      replace (Ok out) with
        (fst (update Qsqrt (toy_eph 0 1) 0 (snd (reset one_year_started))))
        by (rewrite E; reflexivity).
      vm_compute. reflexivity.
    + intros row Hrow. apply (Hrows row Hrow).
  - vm_compute in E. discriminate E.
Defined.

(** ** Pressing the buttons again *)

(** X13.  Pressing start twice in a row leaves the globals exactly as
    pressing it once: the statistics are zero, the dates rebuilt from the
    same settings are the same, and the one animation stands at the same
    frame.  With a usable step, pressing stop and then start right after a
    start gives that state again, timer running. *)
Theorem start_again_changes_nothing (g : Globals) :
  start_simulation (snd (start_simulation g)) = start_simulation g /\
  (step_days g <> 0 ->
   start_simulation (snd (stop_simulation (snd (start_simulation g))))
     = start_simulation g).
Proof.
  unfold start_simulation, stop_simulation, bind.
  rewrite !reset_state.
  unfold update_dates, bind, get, lift, modify, ret, py_range.
  cbn [fst snd start_year end_year step_days dates ani closest_counts
       distance_sums frame_count textbox_start textbox_end
       set_dates set_closest_counts set_distance_sums set_frame_count
       set_ani].
  destruct (step_days g =? 0) eqn:E.
  - cbn [fst snd start_year end_year step_days dates ani closest_counts
         distance_sums frame_count textbox_start textbox_end
         set_dates set_closest_counts set_distance_sums set_frame_count
         set_ani].
    rewrite E. split; [reflexivity|].
    intros H. apply Z.eqb_eq in E. contradiction.
  - cbn [fst snd start_year end_year step_days dates ani closest_counts
         distance_sums frame_count textbox_start textbox_end
         set_dates set_closest_counts set_distance_sums set_frame_count
         set_ani set_timer ani_frames ani_next ani_timer_on].
    rewrite E.
    destruct (ani g) as [a|]; split; try intros _;
      cbn [fst snd start_year end_year step_days dates
         ani closest_counts distance_sums frame_count textbox_start
         textbox_end set_dates set_closest_counts set_distance_sums
         set_frame_count set_ani set_timer ani_frames ani_next ani_timer_on];
      rewrite ?E;
      cbn [fst snd start_year end_year step_days dates
         ani closest_counts distance_sums frame_count textbox_start
         textbox_end set_dates set_closest_counts set_distance_sums
         set_frame_count set_ani set_timer ani_frames ani_next ani_timer_on];
      reflexivity.
Qed.

Lemma start_again_changes_nothing_witness :
  start_simulation (snd (stop_simulation one_year_started))
    = start_simulation one_year_globals.
Proof.
  apply (start_again_changes_nothing one_year_globals). discriminate.
Defined.
